(** * Interval extraction and feature computation of [lunohod_work_1.py]

    A shallow embedding of the log parser ([parse_log_file]), the feature
    functions ([normalize_data], [calculate_line_length], [calculate_mean])
    the session processor ([process_file]) and the batch driver ([main]),
    followed by the properties of the specification that concern them and
    by further properties read off the code.

    Conventions of the embedding:
    - a Python [str] is the list of its Unicode code points ([pystr]);
    - a Python [float] is an IEEE 754 binary64 value, represented by the
      standard library's [spec_float] with the binary64 operations
      (precision 53, maximal exponent 1024, round to nearest even);
    - [np.sum], and with it [np.mean] and [np.std], adds the elements in
      the order of numpy's pairwise sum ([np_sum]);
    - every [print] of the source appends one [message] to an output list;
    - an exception that leaves a function is an explicit [None] result. *)

From Stdlib Require Import String Ascii List ZArith NArith Lia Bool.
From Stdlib Require Import Reals Lra.
From Stdlib Require Import Floats.SpecFloat.
Import ListNotations.

(* ================================================================== *)
(** * Python strings *)

Definition pystr := list N.

(** An ASCII literal as a Python string. *)
Definition str (s : string) : pystr :=
  map N_of_ascii (list_ascii_of_string s).

Definition pystr_eq_dec : forall a b : pystr, {a = b} + {a <> b} :=
  list_eq_dec N.eq_dec.

(** [str.isspace] on one code point: the characters [str.strip()] and
    [str.split()] treat as whitespace. *)
Definition isspace (c : N) : bool :=
  ((9 <=? c) && (c <=? 13) || (28 <=? c) && (c <=? 32)
   || (c =? 133) || (c =? 160) || (c =? 5760)
   || (8192 <=? c) && (c <=? 8202)
   || (c =? 8232) || (c =? 8233) || (c =? 8239) || (c =? 8287)
   || (c =? 12288))%N.

(** U+FEFF, the byte-order mark. *)
Definition BOM : N := 65279%N.

Fixpoint lstrip (s : pystr) : pystr :=
  match s with
  | c :: s' => if isspace c then lstrip s' else s
  | [] => []
  end.

(** [s.strip()] *)
Definition strip (s : pystr) : pystr := rev (lstrip (rev (lstrip s))).

(** [s.replace(BOM, empty)]: every U+FEFF is removed. *)
Definition remove_bom (s : pystr) : pystr :=
  filter (fun c => negb (c =? BOM)%N) s.

(** [s.split()]: the maximal runs of non-whitespace characters. [cur] holds
    the run being read, reversed. *)
Fixpoint split_from (cur s : pystr) : list pystr :=
  match s with
  | [] => match cur with [] => [] | _ => [rev cur] end
  | c :: s' =>
      if isspace c
      then match cur with
           | [] => split_from [] s'
           | _ => rev cur :: split_from [] s'
           end
      else split_from (c :: cur) s'
  end.

Definition split (s : pystr) : list pystr := split_from [] s.

(** [" ".join(parts)] *)
Fixpoint join (parts : list pystr) : pystr :=
  match parts with
  | [] => []
  | [p] => p
  | p :: rest => p ++ 32%N :: join rest
  end.

(* ================================================================== *)
(** * Python floats: IEEE 754 binary64 *)

Definition float := spec_float.

Definition fprec : Z := 53.
Definition femax : Z := 1024.

Definition fadd : float -> float -> float := SFadd fprec femax.
Definition fsub : float -> float -> float := SFsub fprec femax.
Definition fmul : float -> float -> float := SFmul fprec femax.
Definition fdiv : float -> float -> float := SFdiv fprec femax.
Definition fsqrt : float -> float := SFsqrt fprec femax.
Definition fabs : float -> float := SFabs.

(** The binary64 value nearest to an integer ([float(n)]). *)
Definition float_of_Z (z : Z) : float := binary_normalize fprec femax z 0 false.

(** [m / 10^k] in binary64, for decimal literals. *)
Definition float_of_decimal (m : Z) (k : nat) : float :=
  fdiv (float_of_Z m) (float_of_Z (10 ^ Z.of_nat k)).

Definition is_finite (x : float) : bool :=
  match x with
  | S754_zero _ | S754_finite _ _ _ => true
  | S754_infinity _ | S754_nan => false
  end.

Definition is_zero (x : float) : bool :=
  match x with S754_zero _ => true | _ => false end.

(** [int(x)] on a float: truncation toward zero; [None] stands for the
    [ValueError] (NaN) or [OverflowError] (infinity) Python raises. *)
Definition int_of_float (x : float) : option Z :=
  match x with
  | S754_zero _ => Some 0%Z
  | S754_finite s m e => Some (cond_Zopp s (Z.shiftl (Zpos m) e))
  | S754_infinity _ | S754_nan => None
  end.

(** [math.floor(x)]: the greatest integer not above [x]. Not used by the
    program; the specification words the index computation with it. *)
Definition floor_of_float (x : float) : option Z :=
  match x with
  | S754_zero _ => Some 0%Z
  | S754_finite s m e => Some (Z.shiftl (cond_Zopp s (Zpos m)) e)
  | S754_infinity _ | S754_nan => None
  end.

(* ================================================================== *)
(** * Builtins taken as parameters

    [float(token)] and [int(token)] on a string are Python builtins; the
    parser only depends on whether they succeed and on the value they
    return. [None] stands for the [ValueError] they raise. *)

Class Builtins := {
  py_float : pystr -> option float;
  py_int : pystr -> option Z
}.

(* ================================================================== *)
(** * Log parser: [parse_log_file] *)

Record interval := {
  label : option pystr;
  start : float;
  end_ : float
}.

(** One constructor per [print] of the module. *)
Inductive message :=
| UnclosedInterval (current_label : option pystr)  (* "незакрытый интервал для метки" *)
| LineError (line : pystr)                         (* "Ошибка обработки строки" *)
| LogReadError                                     (* "Ошибка чтения лог-файла" *)
| NoIntervals                                      (* "Не найдено интервалов в файле" *)
| BadInterval (iv : interval)                      (* "Некорректный интервал" *)
| ProcessError.                                    (* "Ошибка обработки" + traceback *)

(** The three local variables of [parse_log_file]. *)
Record pstate := {
  intervals : list interval;
  current_start : option float;
  current_label : option pystr
}.

Definition initial : pstate :=
  {| intervals := []; current_start := None; current_label := None |}.

(** What the first half of the loop body makes of a raw line. *)
Inductive line_kind :=
| Skipped                       (* empty, or fewer than 3 tokens: [continue] *)
| Malformed (line : pystr)      (* [float] or [int] raised *)
| Event (time : float) (marker : Z) (lbl : option pystr).

Section Parser.
Context {B : Builtins}.

Definition tokens (raw : pystr) : list pystr :=
  split (remove_bom (strip raw)).

Definition classify (raw : pystr) : line_kind :=
  let line := remove_bom (strip raw) in
  match line with
  | [] => Skipped
  | _ =>
      let parts := split line in
      if (length parts <? 3)%nat then Skipped
      else
        match py_float (nth 0 parts []) with
        | None => Malformed line
        | Some time =>
            match py_int (nth 2 parts []) with
            | None => Malformed line
            | Some marker =>
                let lbl := if (3 <? length parts)%nat
                           then Some (join (skipn 3 parts)) else None in
                Event time marker lbl
            end
        end
  end.

(** The marker state machine (second half of the loop body). *)
Definition on_event (st : pstate) (time : float) (marker : Z)
    (lbl : option pystr) : pstate * list message :=
  if (marker =? 5)%Z then
    ({| intervals := intervals st;
        current_start := Some time;
        current_label := lbl |},
     match current_start st with
     | Some _ => [UnclosedInterval (current_label st)]
     | None => []
     end)
  else
    match (marker =? 6)%Z, current_start st with
    | true, Some s =>
        ({| intervals := intervals st ++
                         [{| label := current_label st; start := s; end_ := time |}];
            current_start := None;
            current_label := None |}, [])
    | _, _ => (st, [])
    end.

(** One iteration of [for line in f]. *)
Definition parse_line (st : pstate) (raw : pystr) : pstate * list message :=
  match classify raw with
  | Skipped => (st, [])
  | Malformed line => (st, [LineError line])
  | Event time marker lbl => on_event st time marker lbl
  end.

Fixpoint run (st : pstate) (lines : list pystr) : pstate * list message :=
  match lines with
  | [] => (st, [])
  | raw :: rest =>
      let (st1, out1) := parse_line st raw in
      let (st2, out2) := run st1 rest in
      (st2, out1 ++ out2)
  end.

(** The state after a sequence of lines, and what was printed on the way. *)
Definition final (st : pstate) (lines : list pystr) : pstate :=
  fst (run st lines).

Definition output (st : pstate) (lines : list pystr) : list message :=
  snd (run st lines).

End Parser.

(** What [codecs.open] and the iteration over the file deliver: the lines
    yielded, and whether the iteration then ended normally or raised (a
    file that cannot be opened yields no line and raises). *)
Record log_source := {
  yielded : list pystr;
  raised : bool
}.

Definition parse_log_file {B : Builtins} (log : log_source)
    : list interval * list message :=
  let (st, out) := run initial (yielded log) in
  (intervals st, out ++ if raised log then [LogReadError] else []).

(** ** A concrete reading of tokens

    Plain ASCII decimal literals, on which Python's [int] and [float] are
    fixed by the language: an optional sign, digits, and for floats an
    optional point. A float literal of at most 15 digits is the quotient of
    two integers that binary64 holds exactly, so one correctly rounded
    division gives the value [float] returns. Other tokens are rejected
    here. Used to run the parser on concrete logs. *)

Definition digit_val (c : N) : option Z :=
  if ((48 <=? c) && (c <=? 57))%N then Some (Z.of_N c - 48)%Z else None.

Fixpoint digits_val (acc : Z) (s : pystr) : option Z :=
  match s with
  | [] => Some acc
  | c :: s' =>
      match digit_val c with
      | Some d => digits_val (10 * acc + d)%Z s'
      | None => None
      end
  end.

Definition with_sign {A} (neg : A -> A) (body : pystr -> option A)
    (s : pystr) : option A :=
  match s with
  | 43%N :: s' => body s'
  | 45%N :: s' => option_map neg (body s')
  | _ => body s
  end.

Definition decimal_int : pystr -> option Z :=
  with_sign Z.opp
    (fun s => match s with [] => None | _ => digits_val 0 s end).

(** Splits at the first point: the digits before it and those after it. *)
Fixpoint cut_point (s : pystr) : pystr * option pystr :=
  match s with
  | [] => ([], None)
  | c :: s' =>
      if (c =? 46)%N then ([], Some s')
      else let (a, b) := cut_point s' in (c :: a, b)
  end.

Definition decimal_float : pystr -> option float :=
  with_sign SFopp
    (fun s =>
       let (ip, fp) := cut_point s in
       let fr := match fp with Some d => d | None => [] end in
       match ip ++ fr with
       | [] => None
       | ds =>
           if (15 <? length ds)%nat then None
           else option_map (fun m => float_of_decimal m (length fr))
                           (digits_val 0 ds)
       end).

Definition decimal_builtins : Builtins :=
  {| py_float := decimal_float; py_int := decimal_int |}.

(* ================================================================== *)
(** * Feature functions

    The numpy routines are written once over the arithmetic they use, so
    that the same definitions run on binary64 (what the program computes)
    and on the real numbers (the arithmetic without rounding). *)

Class Numeric (A : Type) := {
  nzero : A;
  nadd : A -> A -> A;
  nsub : A -> A -> A;
  nmul : A -> A -> A;
  ndiv : A -> A -> A;
  nsqrt : A -> A;
  nabs : A -> A;
  of_nat : nat -> A
}.

#[export] Instance float_numeric : Numeric float := {|
  nzero := S754_zero false;
  nadd := fadd; nsub := fsub; nmul := fmul; ndiv := fdiv;
  nsqrt := fsqrt; nabs := fabs;
  of_nat := fun n => float_of_Z (Z.of_nat n)
|}.

#[export] Instance real_numeric : Numeric R := {|
  nzero := 0%R;
  nadd := Rplus; nsub := Rminus; nmul := Rmult; ndiv := Rdiv;
  nsqrt := sqrt; nabs := Rabs;
  of_nat := INR
|}.

Section Features.
Context {A : Type} {num : Numeric A}.

(** [np.sum] on a contiguous array of floats is numpy's pairwise sum
    ([pairwise_sum] of the add loop). Its unrolled part keeps eight running
    sums [r0 .. r7]: each full block of eight elements is added to them
    element by element; when fewer than eight elements are left the eight
    sums are added as the tree
    [((r0 + r1) + (r2 + r3)) + ((r4 + r5) + (r6 + r7))]
    and the remaining elements are added to the result one by one. *)
Fixpoint unrolled_sum (r0 r1 r2 r3 r4 r5 r6 r7 : A) (a : list A) : A :=
  match a with
  | x0 :: x1 :: x2 :: x3 :: x4 :: x5 :: x6 :: x7 :: rest =>
      unrolled_sum (nadd r0 x0) (nadd r1 x1) (nadd r2 x2) (nadd r3 x3)
                   (nadd r4 x4) (nadd r5 x5) (nadd r6 x6) (nadd r7 x7) rest
  | _ =>
      fold_left nadd a
        (nadd (nadd (nadd r0 r1) (nadd r2 r3))
              (nadd (nadd r4 r5) (nadd r6 r7)))
  end.

(** A block of at most [PW_BLOCKSIZE] elements: fewer than eight elements
    are added from the left starting at zero; otherwise the eight running
    sums start as the first eight elements. *)
Definition block_sum (a : list A) : A :=
  match a with
  | x0 :: x1 :: x2 :: x3 :: x4 :: x5 :: x6 :: x7 :: rest =>
      unrolled_sum x0 x1 x2 x3 x4 x5 x6 x7 rest
  | _ => fold_left nadd a nzero
  end.

Definition PW_BLOCKSIZE : nat := 128.

(** An array of more than [PW_BLOCKSIZE] elements is cut at
    [n2 = n / 2 - (n / 2) % 8] and the sums of the two parts are added.
    The recursion is on a counter that starts at the length of the array;
    both parts are shorter than the array, so the counter never runs out
    before the parts are blocks ([pairwise_sum_fuel]). *)
Fixpoint pairwise_sum (fuel : nat) (a : list A) : A :=
  match fuel with
  | S fuel' =>
      let n := length a in
      if PW_BLOCKSIZE <? n then
        let n2 := n / 2 - (n / 2) mod 8 in
        nadd (pairwise_sum fuel' (firstn n2 a)) (pairwise_sum fuel' (skipn n2 a))
      else block_sum a
  | O => block_sum a
  end.

(** [np.sum]: the reduction starts from the identity 0 of the addition and
    adds the pairwise sum of the array to it. *)
Definition np_sum (a : list A) : A :=
  nadd nzero (pairwise_sum (length a) a).

(** [np.mean]: the sum divided by the number of elements. *)
Definition np_mean (a : list A) : A := ndiv (np_sum a) (of_nat (length a)).

(** [np.std]: the square root of the mean of the squared deviations from
    the mean. *)
Definition np_std (a : list A) : A :=
  let m := np_mean a in
  nsqrt (np_mean (map (fun x => nmul (nsub x m) (nsub x m)) a)).

(** [np.diff]: [out[i] = a[i+1] - a[i]]. *)
Fixpoint np_diff (a : list A) : list A :=
  match a with
  | x :: (y :: _) as rest => nsub y x :: np_diff rest
  | _ => []
  end.

(** [(channel - np.mean(channel)) / np.std(channel)] *)
Definition normalize_channel (channel : list A) : list A :=
  let m := np_mean channel in
  let s := np_std channel in
  map (fun x => ndiv (nsub x m) s) channel.

Definition normalize_data (signals : list (list A)) : list (list A) :=
  map normalize_channel signals.

Definition calculate_line_length (signal : list A) : A :=
  np_sum (map nabs (np_diff signal)).

Definition calculate_mean (signal : list A) : A := np_mean signal.

End Features.

(* ================================================================== *)
(** * Session processor: [process_file] *)

(** What [load_data] returns. *)
Record session := {
  signals : list (list float);
  labels : list pystr;
  sampling_rate : float
}.

Inductive value :=
| VStr (s : pystr)
| VLabel (l : option pystr)
| VFloat (x : float).

(** A result row: a Python dict, kept in insertion order. *)
Definition record := list (pystr * value).

(** [d[k] = v]: replaces the value of an existing key in place, appends a
    new key. *)
Fixpoint dict_set (k : pystr) (v : value) (d : record) : record :=
  match d with
  | [] => [(k, v)]
  | (k', v') :: d' =>
      if pystr_eq_dec k k' then (k, v) :: d' else (k', v') :: dict_set k v d'
  end.

Fixpoint dict_get (k : pystr) (d : record) : option value :=
  match d with
  | [] => None
  | (k', v') :: d' => if pystr_eq_dec k k' then Some v' else dict_get k d'
  end.

(** [np.array(signals)] is a 2-D array when all channels have one length;
    on ragged input it raises. *)
Definition rectangular (sig : list (list float)) : bool :=
  match sig with
  | [] => true
  | r :: rest => forallb (fun r' => (length r' =? length r)%nat) rest
  end.

(** [signals.shape[1]]; [None] is the [IndexError] of an array without
    channels, whose shape is [(0,)]. *)
Definition shape1 (sig : list (list float)) : option nat :=
  match sig with
  | [] => None
  | r :: _ => Some (length r)
  end.

(** [row[s:e]] for [0 <= s <= e <= len(row)]. *)
Definition slice {A} (s e : nat) (row : list A) : list A :=
  firstn (e - s) (skipn s row).

(** The interval mapper (lines 101-107): the outcome of the validity test
    on the two indices. *)
Inductive mapping :=
| Rejected
| Accepted (start_idx end_idx : nat).

(** [int(t * sr)] *)
Definition time_to_index (t sr : float) : option Z :=
  int_of_float (fmul t sr).

(** [None] when one of the [int] conversions or [signals.shape[1]] raises.
    The test is Python's short-circuit [or]: the shape is not looked at when
    [start_idx < 0]. *)
Definition map_interval (iv : interval) (sr : float) (ncols : option nat)
    : option mapping :=
  match time_to_index (start iv) sr with
  | None => None
  | Some start_idx =>
      match time_to_index (end_ iv) sr with
      | None => None
      | Some end_idx =>
          if (start_idx <? 0)%Z then Some Rejected
          else
            match ncols with
            | None => None
            | Some total =>
                if (end_idx >? Z.of_nat total)%Z || (start_idx >=? end_idx)%Z
                then Some Rejected
                else Some (Accepted (Z.to_nat start_idx) (Z.to_nat end_idx))
            end
      end
  end.

Definition LINE_LENGTH : pystr := str "_Line_Length".
Definition MEAN : pystr := str "_Mean".

(** The dict literal of lines 121-127. *)
Definition metadata (base_name : pystr) (iv : interval) : record :=
  [ (str "File", VStr base_name);
    (str "Label", VLabel (label iv));
    (str "Start_Time", VFloat (start iv));
    (str "End_Time", VFloat (end_ iv));
    (str "Duration", VFloat (fsub (end_ iv) (start iv))) ].

(** [for i, label in enumerate(labels)]: [None] is the [IndexError] of
    [line_lengths[i]] when there are more labels than channels. *)
Fixpoint add_features (lbls : list pystr) (i : nat)
    (line_lengths mean_values : list float) (result : record)
    : option record :=
  match lbls with
  | [] => Some result
  | l :: rest =>
      match nth_error line_lengths i, nth_error mean_values i with
      | Some ll, Some m =>
          add_features rest (S i) line_lengths mean_values
            (dict_set (l ++ MEAN) (VFloat m)
               (dict_set (l ++ LINE_LENGTH) (VFloat ll) result))
      | _, _ => None
      end
  end.

(** Lines 109-132 for an accepted interval. *)
Definition build_record (base_name : pystr) (sess : session) (iv : interval)
    (start_idx end_idx : nat) : option record :=
  let interval_signals := map (slice start_idx end_idx) (signals sess) in
  let normalized := normalize_data interval_signals in
  let line_lengths := map calculate_line_length normalized in
  let mean_values := map calculate_mean interval_signals in
  add_features (labels sess) 0 line_lengths mean_values
    (metadata base_name iv).

(** The body of [for interval in intervals]. *)
Inductive body_result :=
| Raises
| Continue                (* the interval is reported and skipped *)
| Appends (r : record).

Definition process_interval (base_name : pystr) (sess : session)
    (iv : interval) : body_result :=
  match map_interval iv (sampling_rate sess) (shape1 (signals sess)) with
  | None => Raises
  | Some Rejected => Continue
  | Some (Accepted start_idx end_idx) =>
      match build_record base_name sess iv start_idx end_idx with
      | None => Raises
      | Some r => Appends r
      end
  end.

Fixpoint process_intervals (base_name : pystr) (sess : session)
    (ivs : list interval) (results : list record)
    : option (list record) * list message :=
  match ivs with
  | [] => (Some results, [])
  | iv :: rest =>
      match process_interval base_name sess iv with
      | Raises => (None, [ProcessError])
      | Continue =>
          let (res, out) := process_intervals base_name sess rest results in
          (res, BadInterval iv :: out)
      | Appends r => process_intervals base_name sess rest (results ++ [r])
      end
  end.

(** [base_name] is [Path(file_path).name] without its [_processed.npy];
    [data] is the outcome of [load_data] ([None] when it raises); [log] is
    what reading the log file delivers. The result is the returned value
    ([None] for Python's [None]) and the lines printed. *)
Definition process_file {B : Builtins} (base_name : pystr)
    (data : option session) (log : log_source)
    : option (list record) * list message :=
  match data with
  | None => (None, [ProcessError])
  | Some sess =>
      if negb (rectangular (signals sess)) then (None, [ProcessError])
      else
        let (ivs, out) := parse_log_file log in
        match ivs with
        | [] => (None, out ++ [NoIntervals])
        | _ =>
            let (res, out') := process_intervals base_name sess ivs [] in
            (res, out ++ out')
        end
  end.

(** The feature columns of a row whose labels are pairwise distinct: for
    each channel its line length, then its mean. *)
Definition feature_columns (lbls : list pystr)
    (line_lengths mean_values : list float) : record :=
  flat_map (fun '(l, (ll, m)) =>
              [(l ++ LINE_LENGTH, VFloat ll); (l ++ MEAN, VFloat m)])
           (combine lbls (combine line_lengths mean_values)).

Definition keys (d : record) : list pystr := map fst d.

(* ================================================================== *)
(** * Batch driver: [main]

    The loop over the data files (lines 152-169) and the choice of the
    table's columns (lines 172-182). The summary statistics printed after
    the table is written are pandas computations and are left out. *)

(** One file matched by [data_dir.glob]: its name without
    [_processed.npy], what [load_data] returns for it ([None] when it
    raises), and the log beside it ([None] when [log_path.exists()] is
    false). *)
Record data_file := {
  file_base : pystr;
  file_data : option session;
  file_log : option log_source
}.

(** The lines [main] prints during the loop; [Session] wraps what
    [process_file] printed. *)
Inductive console :=
| LogNotFound (base_name : pystr)
| Processing (base_name : pystr)
| Session (m : message)
| Found (n : nat).

Fixpoint collect {B : Builtins} (files : list data_file)
    (all_results : list record) : list record * list console :=
  match files with
  | [] => (all_results, [])
  | f :: rest =>
      match file_log f with
      | None =>
          let (res, out) := collect rest all_results in
          (res, LogNotFound (file_base f) :: out)
      | Some log =>
          let (file_results, printed) :=
            process_file (file_base f) (file_data f) log in
          let here := Processing (file_base f) :: map Session printed in
          match file_results with
          | Some (r :: rs) =>
              let (res, out) := collect rest (all_results ++ r :: rs) in
              (res, here ++ Found (length (r :: rs)) :: out)
          | _ =>
              let (res, out) := collect rest all_results in
              (res, here ++ out)
          end
      end
  end.

(** [p] is a prefix of [s]. *)
Fixpoint prefixb (p s : pystr) : bool :=
  match p, s with
  | [], _ => true
  | _ :: _, [] => false
  | a :: p', b :: s' => (a =? b)%N && prefixb p' s'
  end.

(** [needle in hay] on strings. *)
Fixpoint contains (needle hay : pystr) : bool :=
  prefixb needle hay ||
  match hay with
  | [] => false
  | _ :: hay' => contains needle hay'
  end.

(** The columns of [pd.DataFrame(all_results)]: the keys of the rows in
    the order in which they first appear. *)
Definition add_column (cols : list pystr) (k : pystr) : list pystr :=
  if in_dec pystr_eq_dec k cols then cols else cols ++ [k].

Definition frame_columns (rows : list record) : list pystr :=
  fold_left (fun cols r => fold_left add_column (keys r) cols) rows [].

Definition meta_cols : list pystr :=
  [str "File"; str "Label"; str "Start_Time"; str "End_Time"; str "Duration"].

(** Lines 177-179: for each metric, the columns whose name contains
    [_<metric>]. *)
Definition channel_metrics (cols : list pystr) : list pystr :=
  flat_map (fun metric => filter (contains (95%N :: metric)) cols)
           [str "Line_Length"; str "Mean"].

(** The columns of the table written, [meta_cols + channel_metrics]. *)
Definition ordered_columns (rows : list record) : list pystr :=
  meta_cols ++ channel_metrics (frame_columns rows).

(** The table handed to [to_excel]; [None] when there is nothing to save. *)
Definition main_table {B : Builtins} (files : list data_file)
    : option (list pystr * list record) :=
  match fst (collect files []) with
  | [] => None
  | rows => Some (ordered_columns rows, rows)
  end.

(* ================================================================== *)
(** * Vocabulary of the statements *)

Section Vocabulary.
Context {B : Builtins}.

(** A line that is neither a start nor an end marker: skipped, malformed,
    or a data line with another code. *)
Definition is_noise (raw : pystr) : bool :=
  match classify raw with
  | Event _ marker _ => negb (marker =? 5)%Z && negb (marker =? 6)%Z
  | _ => true
  end.

(** A line the parser skips as malformed: fewer than 3 tokens, or a token 0
    that [float] rejects, or a token 2 that [int] rejects. *)
Definition malformed (raw : pystr) : Prop :=
  let parts := tokens raw in
  (length parts < 3)%nat
  \/ py_float (nth 0 parts []) = None
  \/ py_int (nth 2 parts []) = None.

(** Number of data lines carrying the given marker code. *)
Fixpoint count_marker (code : Z) (lines : list pystr) : nat :=
  match lines with
  | [] => 0
  | raw :: rest =>
      match classify raw with
      | Event _ marker _ =>
          if (marker =? code)%Z then S (count_marker code rest)
          else count_marker code rest
      | _ => count_marker code rest
      end
  end.

(** [paired lines ivs]: the start and end markers of [lines] alternate,
    start first, every start followed by its end with only noise between
    them, and [ivs] lists, pair by pair, the label and time of the start
    line and the time of the end line. *)
Inductive paired : list pystr -> list interval -> Prop :=
| paired_done : forall tail,
    forallb is_noise tail = true ->
    paired tail []
| paired_more : forall before s t1 lb1 between e t2 lb2 rest ivs,
    forallb is_noise before = true ->
    classify s = Event t1 5 lb1 ->
    forallb is_noise between = true ->
    classify e = Event t2 6 lb2 ->
    paired rest ivs ->
    paired (before ++ s :: between ++ e :: rest)
           ({| label := lb1; start := t1; end_ := t2 |} :: ivs).

(** [iv] is made by a start line and a later end line of [lines], with
    only noise between the two. *)
Definition made_by (lines : list pystr) (iv : interval) : Prop :=
  exists l1 s l2 e lb l3,
    lines = l1 ++ s :: l2 ++ e :: l3 /\
    classify s = Event (start iv) 5 (label iv) /\
    forallb is_noise l2 = true /\
    classify e = Event (end_ iv) 6 lb.

(** The start line of the interval that is open in [st] is in [lines],
    followed by noise only. *)
Definition open_by (lines : list pystr) (st : pstate) : Prop :=
  forall t, current_start st = Some t ->
  exists l1 s l2,
    lines = l1 ++ s :: l2 /\
    classify s = Event t 5 (current_label st) /\
    forallb is_noise l2 = true.

Definition is_line_error (m : message) : bool :=
  match m with LineError _ => true | _ => false end.

End Vocabulary.

(** Floats that are neither finite nor zero-valued, as a predicate. *)
Definition non_finite (x : float) : Prop := is_finite x = false.

(** Positive infinity or NaN: what the absolute value of a non-finite
    float is. *)
Definition pinf_or_nan (x : float) : Prop :=
  x = S754_infinity false \/ x = S754_nan.

(** The sign bit is not set: the value is +0, positive, +infinity or NaN. *)
Definition sign_clear (x : float) : bool :=
  match x with
  | S754_zero sg | S754_infinity sg | S754_finite sg _ _ => negb sg
  | S754_nan => true
  end.

Definition count_unclosed (out : list message) : nat :=
  length (filter (fun m => match m with UnclosedInterval _ => true | _ => false end)
                 out).

Definition count_bad (out : list message) : nat :=
  length (filter (fun m => match m with BadInterval _ => true | _ => false end)
                 out).

(** 1 when an interval is open, 0 when the parser is idle. *)
Definition open_count (st : pstate) : nat :=
  match current_start st with Some _ => 1 | None => 0 end.

(** What one data file contributes to the batch: the rows [process_file]
    returns for it, nothing when its log is missing or [process_file]
    returns [None]. *)
Definition session_rows {B : Builtins} (f : data_file) : list record :=
  match file_log f with
  | None => []
  | Some log =>
      match fst (process_file (file_base f) (file_data f) log) with
      | Some rows => rows
      | None => []
      end
  end.

(** The interval passes the validity test of the mapper. *)
Definition accepted (sess : session) (iv : interval) : bool :=
  match map_interval iv (sampling_rate sess) (shape1 (signals sess)) with
  | Some (Accepted _ _) => true
  | _ => false
  end.

(** The columns of a label, in the order in which the loop writes them. *)
Definition label_columns (lbls : list pystr) : list pystr :=
  flat_map (fun l => [l ++ LINE_LENGTH; l ++ MEAN]) lbls.

(** The two columns of each label, grouped by metric. *)
Definition line_length_columns (lbls : list pystr) : list pystr :=
  map (fun l => l ++ LINE_LENGTH) lbls.

Definition mean_columns (lbls : list pystr) : list pystr :=
  map (fun l => l ++ MEAN) lbls.

(** A word: not empty and without whitespace. *)
Definition is_word (t : pystr) : bool :=
  match t with
  | [] => false
  | _ => forallb (fun c => negb (isspace c)) t
  end.

(** No proper, non-empty end of [n] starts [y]. *)
Definition no_overlap (n y : pystr) : bool :=
  forallb (fun k => negb (prefixb (skipn k n) y)) (seq 1 (length n - 1)).

(** A label that contains neither [_Line_Length] nor [_Mean]. *)
Definition plain_label (l : pystr) : bool :=
  negb (contains LINE_LENGTH l) && negb (contains MEAN l).

(* ================================================================== *)
(** * Concrete logs and sessions used below *)

Definition two_pairs_log : list pystr :=
  [ str "0.5 k 1";
    str "1.0 k 5 first word";
    str "oops";
    str "2.0 k 6";
    str "x y z";
    str "3.0 k 5";
    str "4.5 k 6 tail";
    str " " ].

Definition two_pairs_intervals : list interval :=
  [ {| label := Some (str "first word");
       start := float_of_decimal 10 1; end_ := float_of_decimal 20 1 |};
    {| label := None;
       start := float_of_decimal 30 1; end_ := float_of_decimal 45 1 |} ].

(** A start that is never closed before the next start. *)
Definition restart_pre : list pystr := [str "0.5 k 5 zero"; str "0.7 k 6"].
Definition restart_mid : list pystr := [str "junk"; str "1.5 k 9"].
Definition restart_post : list pystr := [str "3.0 k 6"].

(** A log that ends while an interval is open. *)
Definition open_ended_pre : list pystr := [str "1.0 k 5 a"; str "2.0 k 6"].
Definition open_ended_post : list pystr := [str "3.5 k 7"; str "bad line ?"].

(** Two intervals, one empty and one beyond ten seconds. *)
Definition rejected_log : log_source :=
  {| yielded := [str "5.0 k 5 a"; str "5.0 k 6"; str "8 k 5"; str "11 k 6"];
     raised := false |}.

(** Lines with runs of blanks and tabs between the words, and a line
    terminator. *)
Definition spaced_line : pystr :=
  str "1.0   k 5  first " ++ 9%N :: str " word ".

Definition tabbed_line : pystr :=
  str "2.5" ++ 9%N :: str "k" ++ 9%N :: str "5" ++ 9%N :: str "on air" ++ [10%N].

(** A log that delivers one complete pair and then fails to read on. *)
Definition broken_log : log_source :=
  {| yielded := [str "1.0 k 5 a"; str "2.0 k 6"]; raised := true |}.

(** The scenario of the specification: two channels of 1000 samples at
    100 Hz, one interval from 2.0 s to 4.0 s. *)
Definition ramp (n : nat) : list float :=
  map (fun i => float_of_Z (Z.of_nat i)) (seq 0 n).

Definition scenario_session : session :=
  {| signals := [ramp 1000; repeat (float_of_decimal 15 1) 1000];
     labels := [str "EDA"; str "PPG"];
     sampling_rate := float_of_Z 100 |}.

Definition scenario_log : log_source :=
  {| yielded := [str "2.0 k 5 stim"; str "4.0 k 6"]; raised := false |}.

(** Two channels of 10 samples at 1 Hz, the second one constant. *)
Definition small_session : session :=
  {| signals := [map float_of_Z [1; 2; 4; 8; 16; 32; 64; 128; 256; 512]%Z;
                 repeat (float_of_Z 7) 10];
     labels := [str "A"; str "B"];
     sampling_rate := float_of_Z 1 |}.

(** The same channels with three labels, with one label, and with the
    same label twice. *)
Definition overlabelled_session : session :=
  {| signals := signals small_session;
     labels := [str "A"; str "B"; str "C"];
     sampling_rate := float_of_Z 1 |}.

Definition underlabelled_session : session :=
  {| signals := signals small_session;
     labels := [str "A"];
     sampling_rate := float_of_Z 1 |}.

Definition twin_session : session :=
  {| signals := signals small_session;
     labels := [str "A"; str "A"];
     sampling_rate := float_of_Z 1 |}.

(** One channel whose label itself contains [_Mean]. *)
Definition mean_labelled_session : session :=
  {| signals := [map float_of_Z [1; 2; 4; 8; 16; 32; 64; 128; 256; 512]%Z];
     labels := [str "A_Mean"];
     sampling_rate := float_of_Z 1 |}.

(** The rows a session gives for a list of intervals. *)
Definition rows_of (base : pystr) (sess : session) (ivs : list interval)
    : list record :=
  flat_map (fun iv => match process_interval base sess iv with
                      | Appends r => [r]
                      | _ => []
                      end) ivs.

(** An interval that starts half a second before the recording. *)
Definition early_interval : interval :=
  {| label := None; start := float_of_decimal (-5) 1; end_ := float_of_Z 1 |}.

Definition first_second : interval :=
  {| label := None; start := float_of_Z 0; end_ := float_of_Z 1 |}.

Definition seconds_2_to_5 : interval :=
  {| label := Some (str "s"); start := float_of_Z 2; end_ := float_of_Z 5 |}.

(* ================================================================== *)
(** * The log parser *)

Section ParserFacts.
Context {B : Builtins}.

Lemma run_app (st : pstate) (l1 l2 : list pystr) :
  run st (l1 ++ l2) =
  (final (final st l1) l2, output st l1 ++ output (final st l1) l2).
Proof.
  unfold final, output.
  revert st; induction l1 as [|raw l1 IH]; intros st; simpl.
  - now destruct (run st l2).
  - destruct (parse_line st raw) as [st1 o1].
    rewrite IH.
    destruct (run st1 l1) as [st2 o2]; simpl.
    now rewrite app_assoc.
Qed.

Lemma final_app st l1 l2 : final st (l1 ++ l2) = final (final st l1) l2.
Proof. unfold final at 1. now rewrite run_app. Qed.

Lemma output_app st l1 l2 :
  output st (l1 ++ l2) = output st l1 ++ output (final st l1) l2.
Proof. unfold output at 1. now rewrite run_app. Qed.

Lemma final_cons st raw rest :
  final st (raw :: rest) = final (fst (parse_line st raw)) rest.
Proof.
  unfold final; simpl. destruct (parse_line st raw) as [st1 o1]; simpl.
  now destruct (run st1 rest).
Qed.

Lemma output_cons st raw rest :
  output st (raw :: rest) =
  snd (parse_line st raw) ++ output (fst (parse_line st raw)) rest.
Proof.
  unfold output; simpl. destruct (parse_line st raw) as [st1 o1]; simpl.
  now destruct (run st1 rest).
Qed.

Lemma final_nil st : final st [] = st.
Proof. reflexivity. Qed.

Lemma parse_line_event st raw t m l :
  classify raw = Event t m l -> parse_line st raw = on_event st t m l.
Proof. unfold parse_line; now intros ->. Qed.

Lemma parse_line_noise st raw :
  is_noise raw = true ->
  fst (parse_line st raw) = st /\
  forallb is_line_error (snd (parse_line st raw)) = true.
Proof.
  unfold is_noise, parse_line.
  destruct (classify raw) as [|line|t m l]; simpl; auto.
  unfold on_event.
  destruct (m =? 5)%Z; simpl; [discriminate|].
  destruct (m =? 6)%Z; simpl; [discriminate|auto].
Qed.

Lemma final_noise st ls : forallb is_noise ls = true -> final st ls = st.
Proof.
  induction ls as [|raw ls IH]; simpl; auto.
  intros H; apply andb_prop in H as [Hn Hr].
  rewrite final_cons.
  destruct (parse_line_noise st raw Hn) as [-> _]. auto.
Qed.

Lemma output_noise st ls :
  forallb is_noise ls = true ->
  forallb is_line_error (output st ls) = true.
Proof.
  induction ls as [|raw ls IH]; simpl; auto.
  intros H; apply andb_prop in H as [Hn Hr].
  rewrite output_cons, forallb_app.
  destruct (parse_line_noise st raw Hn) as [-> ->]. simpl; auto.
Qed.

Lemma malformed_classify raw :
  malformed raw ->
  classify raw = Skipped \/ exists line, classify raw = Malformed line.
Proof.
  unfold malformed, classify, tokens.
  destruct (remove_bom (strip raw)) as [|c line] eqn:E; auto.
  intros [H|[H|H]].
  - apply Nat.ltb_lt in H; rewrite H; auto.
  - destruct (_ <? 3)%nat; auto. rewrite H; eauto.
  - destruct (_ <? 3)%nat; auto.
    destruct (py_float _); eauto. rewrite H; eauto.
Qed.

Lemma parse_log_file_intervals (ls : list pystr) (r : bool) :
  fst (parse_log_file {| yielded := ls; raised := r |}) =
  intervals (final initial ls).
Proof.
  unfold parse_log_file, final; simpl. now destruct (run initial ls).
Qed.

Lemma parse_log_file_messages (ls : list pystr) (r : bool) :
  snd (parse_log_file {| yielded := ls; raised := r |}) =
  output initial ls ++ (if r then [LogReadError] else []).
Proof.
  unfold parse_log_file, output; simpl. now destruct (run initial ls).
Qed.

Lemma final_paired ls ivs :
  paired ls ivs ->
  forall st, current_start st = None ->
  intervals (final st ls) = intervals st ++ ivs /\
  current_start (final st ls) = None.
Proof.
  induction 1 as [tail Ht|before s t1 lb1 between e t2 lb2 rest ivs Hb Hs Hm He _ IH];
    intros st Hst.
  - rewrite (final_noise st tail Ht), app_nil_r. auto.
  - rewrite final_app, (final_noise st before Hb), final_cons,
      (parse_line_event st s _ _ _ Hs).
    unfold on_event at 1 2; simpl fst.
    rewrite final_app, (final_noise _ between Hm).
    rewrite final_cons.
    match goal with |- context [parse_line ?s0 e] =>
      rewrite (parse_line_event s0 e _ _ _ He) end.
    unfold on_event at 1 2; simpl fst.
    match goal with |- context [final ?s0 rest] =>
      destruct (IH s0 eq_refl) as [-> ->] end.
    simpl. rewrite <- app_assoc. auto.
Qed.

Lemma count_marker_app code l1 l2 :
  count_marker code (l1 ++ l2) = count_marker code l1 + count_marker code l2.
Proof.
  induction l1 as [|raw l1 IH]; simpl; auto.
  destruct (classify raw); auto.
  destruct (_ =? code)%Z; simpl; auto.
Qed.

Lemma count_marker_noise code ls :
  (code = 5 \/ code = 6)%Z ->
  forallb is_noise ls = true -> count_marker code ls = 0.
Proof.
  intros Hc; induction ls as [|raw ls IH]; simpl; auto.
  intros H; apply andb_prop in H as [Hn Hr].
  unfold is_noise in Hn.
  destruct (classify raw) as [| |t m l]; auto.
  destruct (m =? code)%Z eqn:E; auto.
  apply Z.eqb_eq in E; subst m.
  destruct Hc; subst code; discriminate.
Qed.

Lemma count_marker_paired ls ivs :
  paired ls ivs ->
  count_marker 5 ls = length ivs /\ count_marker 6 ls = length ivs.
Proof.
  induction 1 as [tail Ht|before s t1 lb1 between e t2 lb2 rest ivs Hb Hs Hm He _ [IH5 IH6]].
  - split; apply count_marker_noise; auto.
  - rewrite !count_marker_app; simpl.
    rewrite Hs; simpl. rewrite !count_marker_app; simpl. rewrite He; simpl.
    rewrite !(count_marker_noise _ before), !(count_marker_noise _ between)
      by auto.
    simpl. split; congruence.
Qed.

(** C2. A log made of N start/end pairs that alternate properly, with only
    lines that are no start or end marker around and between them, parses
    to exactly N intervals, in the order of the pairs; each interval has
    the label and time of its marker-5 line and ends at the time of its
    marker-6 line. N is both the number of marker-5 lines and the number
    of marker-6 lines. *)
Theorem parse_log_file_paired (lines : list pystr) (ivs : list interval)
    (r : bool) :
  paired lines ivs ->
  fst (parse_log_file {| yielded := lines; raised := r |}) = ivs /\
  length ivs = count_marker 5 lines /\
  length ivs = count_marker 6 lines.
Proof.
  intros H.
  destruct (count_marker_paired lines ivs H) as [E5 E6].
  rewrite parse_log_file_intervals.
  destruct (final_paired lines ivs H initial eq_refl) as [-> _].
  simpl. auto.
Qed.

(** C6. When a start marker is followed by another start marker with no
    end marker between them, the first start leaves no interval: the log
    parses to the intervals of the log without the first start, the open
    interval after the second start carries the second start's time and
    label, and a warning naming the first start's label is printed. *)
Theorem unclosed_start_dropped (pre : list pystr) (s1 : pystr) (t1 : float)
    (lb1 : option pystr) (mid : list pystr) (s2 : pystr) (t2 : float)
    (lb2 : option pystr) (post : list pystr) (r : bool) :
  classify s1 = Event t1 5 lb1 ->
  forallb is_noise mid = true ->
  classify s2 = Event t2 5 lb2 ->
  fst (parse_log_file
         {| yielded := pre ++ s1 :: mid ++ s2 :: post; raised := r |}) =
  fst (parse_log_file {| yielded := pre ++ s2 :: post; raised := r |}) /\
  final initial (pre ++ s1 :: mid ++ [s2]) =
  {| intervals := intervals (final initial pre);
     current_start := Some t2; current_label := lb2 |} /\
  In (UnclosedInterval lb1)
     (snd (parse_log_file
             {| yielded := pre ++ s1 :: mid ++ s2 :: post; raised := r |})).
Proof.
  intros H1 Hm H2.
  assert (E : forall tl, final initial (pre ++ s1 :: mid ++ s2 :: tl) =
                         final {| intervals := intervals (final initial pre);
                                  current_start := Some t2;
                                  current_label := lb2 |} tl).
  { intros tl.
    rewrite final_app, final_cons, (parse_line_event _ s1 _ _ _ H1).
    unfold on_event at 1; simpl fst.
    rewrite final_app, (final_noise _ mid Hm), final_cons,
      (parse_line_event _ s2 _ _ _ H2).
    reflexivity. }
  split; [|split].
  - rewrite !parse_log_file_intervals, E.
    rewrite final_app, final_cons, (parse_line_event _ s2 _ _ _ H2).
    reflexivity.
  - apply (E []).
  - rewrite parse_log_file_messages.
    apply in_or_app; left.
    rewrite output_app; apply in_or_app; right.
    rewrite output_cons; apply in_or_app; right.
    rewrite (parse_line_event _ s1 _ _ _ H1).
    unfold on_event at 1; simpl fst.
    rewrite output_app; apply in_or_app; right.
    rewrite (final_noise _ mid Hm), output_cons; apply in_or_app; left.
    rewrite (parse_line_event _ s2 _ _ _ H2).
    simpl. auto.
Qed.

(** C7. When the last start marker of a log is followed by no end marker
    before the end of the file, the parser is still open at the end, the
    returned intervals are those of the log before that start, and nothing
    is printed about it: after the start line only per-line parse errors
    are reported. *)
Theorem trailing_start_vanishes (pre : list pystr) (s : pystr) (t : float)
    (lb : option pystr) (post : list pystr) (r : bool) :
  classify s = Event t 5 lb ->
  forallb is_noise post = true ->
  fst (parse_log_file {| yielded := pre ++ s :: post; raised := r |}) =
  fst (parse_log_file {| yielded := pre; raised := r |}) /\
  current_start (final initial (pre ++ s :: post)) = Some t /\
  forallb is_line_error (output (final initial (pre ++ [s])) post) = true.
Proof.
  intros Hs Hp.
  assert (E : final initial (pre ++ s :: post) =
              {| intervals := intervals (final initial pre);
                 current_start := Some t; current_label := lb |}).
  { rewrite final_app, final_cons, (parse_line_event _ s _ _ _ Hs).
    unfold on_event at 1; simpl fst.
    apply final_noise, Hp. }
  split; [|split].
  - rewrite !parse_log_file_intervals, E. reflexivity.
  - rewrite E. reflexivity.
  - apply output_noise, Hp.
Qed.

(** C10. A line skipped as malformed (fewer than 3 tokens, or token 0 not
    a float, or token 2 not an integer) leaves the parser's state as it
    was: the open start time and label and the intervals emitted so far.
    Hence removing such a line from a log, wherever it stands, does not
    change the intervals returned. *)
Theorem malformed_line_keeps_state (raw : pystr) :
  malformed raw ->
  (forall st, fst (parse_line st raw) = st) /\
  (forall pre post r,
     fst (parse_log_file {| yielded := pre ++ raw :: post; raised := r |}) =
     fst (parse_log_file {| yielded := pre ++ post; raised := r |})).
Proof.
  intros H.
  assert (K : forall st, fst (parse_line st raw) = st).
  { intros st. unfold parse_line.
    destruct (malformed_classify raw H) as [->|[line ->]]; reflexivity. }
  split; [exact K|].
  intros pre post r.
  rewrite !parse_log_file_intervals, !final_app, final_cons, K.
  reflexivity.
Qed.

(** C9 (as amended). When reading the log fails, [parse_log_file] still
    returns: it prints the read error after whatever the lines read so far
    printed, and returns the intervals completed by those lines, the same
    as for a file that ends there. When the file cannot be opened, or
    nothing could be read, that is the empty list. *)
Theorem parse_log_file_read_failure (lines : list pystr) :
  fst (parse_log_file {| yielded := lines; raised := true |}) =
  fst (parse_log_file {| yielded := lines; raised := false |}) /\
  snd (parse_log_file {| yielded := lines; raised := true |}) =
  snd (parse_log_file {| yielded := lines; raised := false |})
  ++ [LogReadError] /\
  parse_log_file {| yielded := []; raised := true |} = ([], [LogReadError]).
Proof.
  rewrite !parse_log_file_intervals, !parse_log_file_messages.
  rewrite app_nil_r. auto.
Qed.

End ParserFacts.

Lemma two_pairs_paired :
  @paired decimal_builtins two_pairs_log two_pairs_intervals.
Proof.
  exact (@paired_more decimal_builtins
           [str "0.5 k 1"] (str "1.0 k 5 first word") _ _
           [str "oops"] (str "2.0 k 6") _ None _ _
           eq_refl eq_refl eq_refl eq_refl
           (@paired_more decimal_builtins
              [str "x y z"] (str "3.0 k 5") _ _
              [] (str "4.5 k 6 tail") _ (Some (str "tail")) _ _
              eq_refl eq_refl eq_refl eq_refl
              (@paired_done decimal_builtins [str " "] eq_refl))).
Defined.

Lemma parse_log_file_paired_witness :
  @paired decimal_builtins two_pairs_log two_pairs_intervals /\
  fst (@parse_log_file decimal_builtins
         {| yielded := two_pairs_log; raised := false |})
  = two_pairs_intervals /\
  length two_pairs_intervals = @count_marker decimal_builtins 5 two_pairs_log /\
  length two_pairs_intervals = @count_marker decimal_builtins 6 two_pairs_log.
Proof.
  split.
  - exact two_pairs_paired.
  - exact (@parse_log_file_paired decimal_builtins two_pairs_log
             two_pairs_intervals false two_pairs_paired).
Defined.

(* ================================================================== *)
(** * Result rows *)

Ltac key_clash E :=
  apply (f_equal (@rev N)) in E;
  rewrite ?rev_app_distr in E;
  cbn in E; discriminate E.

Lemma line_length_key_inj l1 l2 :
  l1 ++ LINE_LENGTH = l2 ++ LINE_LENGTH -> l1 = l2.
Proof. apply app_inv_tail. Qed.

Lemma mean_key_inj l1 l2 : l1 ++ MEAN = l2 ++ MEAN -> l1 = l2.
Proof. apply app_inv_tail. Qed.

Lemma line_length_key_not_mean l1 l2 : l1 ++ LINE_LENGTH <> l2 ++ MEAN.
Proof. intros E. key_clash E. Qed.

Lemma metadata_keys_not_features base iv l :
  ~ In (l ++ LINE_LENGTH) (keys (metadata base iv)) /\
  ~ In (l ++ MEAN) (keys (metadata base iv)).
Proof.
  split; intros H; simpl in H;
    repeat (destruct H as [H|H]; [symmetry in H; key_clash H|]);
    exact H.
Qed.

Lemma dict_set_fresh k v d :
  ~ In k (keys d) -> dict_set k v d = d ++ [(k, v)].
Proof.
  induction d as [|[k' v'] d IH]; simpl; auto.
  intros H. destruct (pystr_eq_dec k k') as [->|_].
  - exfalso; auto.
  - rewrite IH; auto.
Qed.

Lemma dict_get_app_fresh k d1 d2 :
  ~ In k (keys d1) -> dict_get k (d1 ++ d2) = dict_get k d2.
Proof.
  induction d1 as [|[k' v'] d1 IH]; simpl; auto.
  intros H. destruct (pystr_eq_dec k k') as [->|_].
  - exfalso; auto.
  - apply IH; auto.
Qed.

Lemma keys_app d1 d2 : keys (d1 ++ d2) = keys d1 ++ keys d2.
Proof. apply map_app. Qed.

Lemma skipn_nth_error {A} (l : list A) i x :
  nth_error l i = Some x -> skipn i l = x :: skipn (S i) l.
Proof.
  revert i; induction l as [|y l IH]; intros [|i]; simpl; try discriminate.
  - now intros [= ->].
  - intros H. now rewrite (IH i H).
Qed.

(** With pairwise distinct labels, none of whose columns is in the row yet,
    the loop over the labels appends the columns channel by channel. *)
Lemma add_features_fresh lbls :
  forall i lls means res,
  NoDup lbls ->
  (forall l, In l lbls ->
     ~ In (l ++ LINE_LENGTH) (keys res) /\ ~ In (l ++ MEAN) (keys res)) ->
  length lbls + i <= length lls ->
  length lls = length means ->
  add_features lbls i lls means res =
  Some (res ++ feature_columns lbls (skipn i lls) (skipn i means)).
Proof.
  induction lbls as [|l lbls IH]; intros i lls means res Hnd Hfresh Hlen Heq.
  - simpl. now rewrite app_nil_r.
  - simpl in Hlen.
    destruct (nth_error lls i) as [ll|] eqn:Ell;
      [|apply nth_error_None in Ell; lia].
    destruct (nth_error means i) as [m|] eqn:Em;
      [|apply nth_error_None in Em; lia].
    simpl. rewrite Ell, Em.
    destruct (Hfresh l (or_introl eq_refl)) as [F1 F2].
    inversion Hnd as [|? ? Hnotin Hnd']; subst.
    rewrite (dict_set_fresh _ _ res F1).
    rewrite dict_set_fresh.
    2:{ rewrite keys_app, in_app_iff; simpl.
        intros [H|[H|[]]]; [now apply F2|].
        now apply (line_length_key_not_mean l l). }
    rewrite IH; auto; try lia.
    + rewrite (skipn_nth_error lls i ll Ell), (skipn_nth_error means i m Em).
      unfold feature_columns; simpl. now rewrite <- !app_assoc.
    + intros l' Hl'. destruct (Hfresh l' (or_intror Hl')) as [G1 G2].
      rewrite !keys_app; simpl. rewrite !in_app_iff; simpl.
      split; intros [[H|[H|[]]]|[H|[]]]; auto.
      * apply line_length_key_inj in H; subst; auto.
      * symmetry in H. now apply line_length_key_not_mean in H.
      * now apply line_length_key_not_mean in H.
      * apply mean_key_inj in H; subst; auto.
Qed.

Lemma build_record_shape base sess iv s e :
  NoDup (labels sess) ->
  length (labels sess) = length (signals sess) ->
  build_record base sess iv s e =
  Some (metadata base iv ++
        feature_columns (labels sess)
          (map (fun ch => calculate_line_length (normalize_channel (slice s e ch)))
               (signals sess))
          (map (fun ch => calculate_mean (slice s e ch)) (signals sess))).
Proof.
  intros Hnd Hlen. unfold build_record, normalize_data.
  rewrite add_features_fresh; auto.
  - simpl skipn. now rewrite !map_map.
  - intros l _. apply metadata_keys_not_features.
  - rewrite !length_map, Nat.add_0_r. apply Nat.eq_le_incl. exact Hlen.
  - now rewrite !length_map.
Qed.

(** Reading a channel's columns back from such a row. *)
Lemma feature_columns_get lbls :
  forall lls means i l ll m,
  NoDup lbls ->
  nth_error lbls i = Some l ->
  nth_error lls i = Some ll ->
  nth_error means i = Some m ->
  dict_get (l ++ LINE_LENGTH) (feature_columns lbls lls means) = Some (VFloat ll) /\
  dict_get (l ++ MEAN) (feature_columns lbls lls means) = Some (VFloat m).
Proof.
  induction lbls as [|l0 lbls IH]; intros lls means i l ll m Hnd Hl Hll Hm.
  - destruct i; discriminate.
  - inversion Hnd as [|? ? Hnotin Hnd']; subst.
    destruct lls as [|ll0 lls]; [destruct i; discriminate|].
    destruct means as [|m0 means]; [destruct i; discriminate|].
    unfold feature_columns; simpl.
    destruct i as [|i]; simpl in *.
    + injection Hl as ->. injection Hll as ->. injection Hm as ->.
      destruct (pystr_eq_dec (l ++ LINE_LENGTH) (l ++ LINE_LENGTH)); [|congruence].
      destruct (pystr_eq_dec (l ++ MEAN) (l ++ LINE_LENGTH)) as [E|_];
        [symmetry in E; now apply line_length_key_not_mean in E|].
      destruct (pystr_eq_dec (l ++ MEAN) (l ++ MEAN)); [|congruence].
      auto.
    + assert (l <> l0).
      { intros ->. apply Hnotin. eapply nth_error_In; eauto. }
      destruct (pystr_eq_dec (l ++ LINE_LENGTH) (l0 ++ LINE_LENGTH)) as [E|_];
        [apply line_length_key_inj in E; congruence|].
      destruct (pystr_eq_dec (l ++ LINE_LENGTH) (l0 ++ MEAN)) as [E|_];
        [now apply line_length_key_not_mean in E|].
      destruct (pystr_eq_dec (l ++ MEAN) (l0 ++ LINE_LENGTH)) as [E|_];
        [symmetry in E; now apply line_length_key_not_mean in E|].
      destruct (pystr_eq_dec (l ++ MEAN) (l0 ++ MEAN)) as [E|_];
        [apply mean_key_inj in E; congruence|].
      apply (IH lls means i l ll m); auto.
Qed.

(* ================================================================== *)
(** * The interval mapper *)

Lemma slice_length {A} (s e : nat) (row : list A) :
  e <= length row -> length (slice s e row) = e - s.
Proof.
  intros H. unfold slice. rewrite length_firstn, length_skipn. lia.
Qed.

Lemma slice_nth_error {A} (s e : nat) (row : list A) (i : nat) :
  i < e - s -> nth_error (slice s e row) i = nth_error row (s + i).
Proof.
  intros H. unfold slice.
  rewrite nth_error_firstn.
  destruct (Nat.ltb_spec i (e - s)); [|lia].
  apply nth_error_skipn.
Qed.

(** [int] agrees with the floor on values that are not negative, and is
    the floor or one more on negative ones. *)
Lemma int_of_float_vs_floor (x : float) (s f : Z) :
  int_of_float x = Some s ->
  floor_of_float x = Some f ->
  ((0 <= f)%Z -> s = f) /\ (s = f \/ s = (f + 1)%Z).
Proof.
  destruct x as [sg|sg| |sg m e]; simpl; try discriminate.
  - intros [= <-] [= <-]. auto.
  - intros [= <-] [= <-].
    destruct sg; simpl; [|auto].
    destruct (Z.leb_spec 0 e) as [He|He].
    + rewrite !Z.shiftl_mul_pow2 by auto.
      split; intros; [|left]; lia.
    + rewrite !Z.shiftl_div_pow2 by lia.
      assert (Hp : (0 < 2 ^ (- e))%Z) by (apply Z.pow_pos_nonneg; lia).
      set (b := (2 ^ (- e))%Z) in *.
      pose proof (Z.div_mod (Zpos m) b ltac:(lia)) as D1.
      pose proof (Z.mod_pos_bound (Zpos m) b Hp) as B1.
      pose proof (Z.div_mod (Zneg m) b ltac:(lia)) as D2.
      pose proof (Z.mod_pos_bound (Zneg m) b Hp) as B2.
      change (Z.neg m) with (- Z.pos m)%Z in *.
      set (q1 := (Z.pos m / b)%Z) in *.
      set (q2 := (- Z.pos m / b)%Z) in *.
      assert (q2 = (- q1)%Z \/ q2 = (- q1 - 1)%Z) by nia.
      split; [intros; nia | lia].
Qed.

Section MapperFacts.
Variables (base : pystr) (sess : session) (iv : interval).
Variables (total : nat) (s e : Z).
Hypothesis Hshape : shape1 (signals sess) = Some total.
Hypothesis Hs : int_of_float (fmul (start iv) (sampling_rate sess)) = Some s.
Hypothesis He : int_of_float (fmul (end_ iv) (sampling_rate sess)) = Some e.

Lemma map_interval_cases :
  map_interval iv (sampling_rate sess) (Some total) =
  Some (if ((s <? 0) || (e >? Z.of_nat total) || (s >=? e))%Z
        then Rejected else Accepted (Z.to_nat s) (Z.to_nat e)).
Proof.
  unfold map_interval, time_to_index. rewrite Hs, He.
  destruct (s <? 0)%Z; simpl; auto.
  destruct ((e >? Z.of_nat total) || (s >=? e))%Z; auto.
Qed.

Lemma invalid_reflect :
  ((s <? 0) || (e >? Z.of_nat total) || (s >=? e))%Z = true <->
  (s < 0 \/ e > Z.of_nat total \/ s >= e)%Z.
Proof.
  rewrite !orb_true_iff, Z.ltb_lt, Z.gtb_gt, Z.geb_ge. tauto.
Qed.

End MapperFacts.

(** C3 (as amended). The interval mapper takes as indices the products
    time * rate truncated toward zero (Python's [int]): the floor when the
    product is not negative, the floor or one more when it is. With both
    indices defined, the interval is reported and skipped, adding no row
    and leaving the remaining intervals to be processed, exactly when
    start_index < 0 or end_index > total_samples or start_index >=
    end_index; otherwise every channel is cut to the half-open index range
    from start_index to end_index. *)
Theorem interval_mapper_truncates (base : pystr) (sess : session)
    (iv : interval) (total : nat) (s e : Z) :
  shape1 (signals sess) = Some total ->
  int_of_float (fmul (start iv) (sampling_rate sess)) = Some s ->
  int_of_float (fmul (end_ iv) (sampling_rate sess)) = Some e ->
  (forall fs fe,
     floor_of_float (fmul (start iv) (sampling_rate sess)) = Some fs ->
     floor_of_float (fmul (end_ iv) (sampling_rate sess)) = Some fe ->
     ((0 <= fs)%Z -> s = fs) /\ (s = fs \/ s = (fs + 1)%Z) /\
     ((0 <= fe)%Z -> e = fe) /\ (e = fe \/ e = (fe + 1)%Z)) /\
  (process_interval base sess iv = Continue <->
   (s < 0 \/ e > Z.of_nat total \/ s >= e)%Z) /\
  ((s < 0 \/ e > Z.of_nat total \/ s >= e)%Z ->
   forall rest results,
     process_intervals base sess (iv :: rest) results =
     (fst (process_intervals base sess rest results),
      BadInterval iv :: snd (process_intervals base sess rest results))) /\
  (~ (s < 0 \/ e > Z.of_nat total \/ s >= e)%Z ->
   map_interval iv (sampling_rate sess) (shape1 (signals sess)) =
     Some (Accepted (Z.to_nat s) (Z.to_nat e)) /\
   process_interval base sess iv =
     match build_record base sess iv (Z.to_nat s) (Z.to_nat e) with
     | Some r => Appends r
     | None => Raises
     end /\
   forall row : list float,
     (Z.to_nat e <= length row)%nat ->
     length (slice (Z.to_nat s) (Z.to_nat e) row) = (Z.to_nat e - Z.to_nat s)%nat /\
     forall i, (i < Z.to_nat e - Z.to_nat s)%nat ->
       nth_error (slice (Z.to_nat s) (Z.to_nat e) row) i =
       nth_error row (Z.to_nat s + i)).
Proof.
  intros Hshape Hs He.
  pose proof (map_interval_cases sess iv total s e Hs He) as M.
  pose proof (invalid_reflect total s e) as R.
  assert (P : process_interval base sess iv =
              if ((s <? 0) || (e >? Z.of_nat total) || (s >=? e))%Z
              then Continue
              else match build_record base sess iv (Z.to_nat s) (Z.to_nat e) with
                   | Some r => Appends r
                   | None => Raises
                   end).
  { unfold process_interval. rewrite Hshape, M.
    now destruct ((s <? 0) || (e >? Z.of_nat total) || (s >=? e))%Z. }
  split; [|split; [|split]].
  - intros fs fe Hfs Hfe.
    destruct (int_of_float_vs_floor _ s fs Hs Hfs) as [A1 A2].
    destruct (int_of_float_vs_floor _ e fe He Hfe) as [B1 B2].
    auto.
  - rewrite <- R, P.
    destruct ((s <? 0) || (e >? Z.of_nat total) || (s >=? e))%Z.
    + tauto.
    + split; [|discriminate].
      destruct (build_record _ _ _ _ _); discriminate.
  - intros Hbad rest results. apply R in Hbad.
    simpl. rewrite P, Hbad.
    now destruct (process_intervals base sess rest results).
  - intros Hok.
    assert (Hb : ((s <? 0) || (e >? Z.of_nat total) || (s >=? e))%Z = false).
    { destruct ((s <? 0) || (e >? Z.of_nat total) || (s >=? e))%Z; auto.
      exfalso; apply Hok, R; auto. }
    rewrite Hshape, M, P, Hb.
    repeat split; auto.
    + now apply slice_length.
    + intros i Hi. now apply slice_nth_error.
Qed.

Lemma interval_mapper_truncates_witness :
  shape1 (signals small_session) = Some 10%nat /\
  int_of_float (fmul (start early_interval) (sampling_rate small_session))
    = Some 0%Z /\
  int_of_float (fmul (end_ early_interval) (sampling_rate small_session))
    = Some 1%Z /\
  (process_interval (str "rec") small_session early_interval = Continue <->
   (0 < 0 \/ 1 > Z.of_nat 10 \/ 0 >= 1)%Z).
Proof.
  repeat split; try reflexivity;
    apply (interval_mapper_truncates (str "rec") small_session early_interval
             10 0 1 eq_refl eq_refl eq_refl).
Defined.

(** C3 as stated fails: for an interval from -0.5 s to 1.0 s at 1 Hz over
    10 samples the floor of the start product is -1, which the stated rule
    rejects, while the mapper takes index 0, accepts the interval and cuts
    the range from 0 to 1. *)
Lemma negative_start_accepted :
  floor_of_float (fmul (start early_interval) (sampling_rate small_session))
    = Some (-1)%Z /\
  floor_of_float (fmul (end_ early_interval) (sampling_rate small_session))
    = Some 1%Z /\
  map_interval early_interval (sampling_rate small_session)
    (shape1 (signals small_session)) = Some (Accepted 0 1) /\
  process_interval (str "rec") small_session early_interval <> Continue /\
  ~ (process_interval (str "rec") small_session early_interval = Continue <->
     (-1 < 0 \/ 1 > Z.of_nat 10 \/ -1 >= 1)%Z).
Proof.
  assert (N : process_interval (str "rec") small_session early_interval
              <> Continue) by (vm_compute; discriminate).
  repeat split; try reflexivity; try exact N.
  intros [_ H]. apply N, H. left. lia.
Qed.

(** A time that is NaN or infinite has no index: [int] raises, and the
    exception ends the whole session. *)
Lemma non_finite_time_aborts (base : pystr) (sess : session) (iv : interval)
    (rest : list interval) (results : list record) :
  is_finite (fmul (start iv) (sampling_rate sess)) = false ->
  process_intervals base sess (iv :: rest) results = (None, [ProcessError]).
Proof.
  intros H. simpl. unfold process_interval, map_interval, time_to_index.
  destruct (fmul (start iv) (sampling_rate sess)); try discriminate; reflexivity.
Qed.

(* ================================================================== *)
(** * The session processor *)

Lemma accepted_appends base sess iv s e :
  map_interval iv (sampling_rate sess) (shape1 (signals sess))
    = Some (Accepted s e) ->
  NoDup (labels sess) ->
  length (labels sess) = length (signals sess) ->
  process_interval base sess iv =
  Appends (metadata base iv ++
           feature_columns (labels sess)
             (map (fun ch => calculate_line_length
                               (normalize_channel (slice s e ch)))
                  (signals sess))
             (map (fun ch => calculate_mean (slice s e ch)) (signals sess))).
Proof.
  intros Hm Hnd Hlen. unfold process_interval.
  now rewrite Hm, build_record_shape.
Qed.

Lemma accepted_columns base sess iv s e i l ch :
  map_interval iv (sampling_rate sess) (shape1 (signals sess))
    = Some (Accepted s e) ->
  NoDup (labels sess) ->
  length (labels sess) = length (signals sess) ->
  nth_error (labels sess) i = Some l ->
  nth_error (signals sess) i = Some ch ->
  exists r,
    process_interval base sess iv = Appends r /\
    dict_get (l ++ LINE_LENGTH) r =
      Some (VFloat (calculate_line_length (normalize_channel (slice s e ch)))) /\
    dict_get (l ++ MEAN) r = Some (VFloat (calculate_mean (slice s e ch))).
Proof.
  intros Hm Hnd Hlen Hl Hch.
  eexists; split; [apply accepted_appends; eauto|].
  destruct (metadata_keys_not_features base iv l) as [F1 F2].
  rewrite !dict_get_app_fresh by assumption.
  apply (feature_columns_get (labels sess) _ _ i); auto.
  - now rewrite nth_error_map, Hch.
  - now rewrite nth_error_map, Hch.
Qed.


Lemma small_session_labels_nodup : NoDup (labels small_session).
Proof.
  repeat constructor; simpl; intuition discriminate.
Defined.





(* ================================================================== *)
(** * numpy's order of addition *)

Section Summation.
Context {A : Type} {num : Numeric A}.

(** Lists are consumed eight elements at a time. *)
Lemma list_ind8 (P : list A -> Prop) :
  (forall a, length a < 8 -> P a) ->
  (forall x0 x1 x2 x3 x4 x5 x6 x7 rest,
     P rest -> P (x0 :: x1 :: x2 :: x3 :: x4 :: x5 :: x6 :: x7 :: rest)) ->
  forall a, P a.
Proof.
  intros Hshort Hblock.
  fix IH 1.
  intros a.
  destruct a as [|x0 [|x1 [|x2 [|x3 [|x4 [|x5 [|x6 [|x7 rest]]]]]]]];
    try (apply Hshort; simpl; lia).
  apply Hblock, IH.
Qed.

Lemma unrolled_sum_short r0 r1 r2 r3 r4 r5 r6 r7 (a : list A) :
  length a < 8 ->
  unrolled_sum r0 r1 r2 r3 r4 r5 r6 r7 a =
  fold_left nadd a
    (nadd (nadd (nadd r0 r1) (nadd r2 r3)) (nadd (nadd r4 r5) (nadd r6 r7))).
Proof.
  destruct a as [|x0 [|x1 [|x2 [|x3 [|x4 [|x5 [|x6 [|x7 rest]]]]]]]];
    try reflexivity.
  simpl; lia.
Qed.

Lemma block_sum_short (a : list A) :
  length a < 8 -> block_sum a = fold_left nadd a nzero.
Proof.
  destruct a as [|x0 [|x1 [|x2 [|x3 [|x4 [|x5 [|x6 [|x7 rest]]]]]]]];
    try reflexivity.
  simpl; lia.
Qed.

Lemma pairwise_sum_block (fuel : nat) (a : list A) :
  length a <= PW_BLOCKSIZE -> pairwise_sum fuel a = block_sum a.
Proof.
  intros H. destruct fuel; [reflexivity|]. cbn [pairwise_sum].
  destruct (Nat.ltb_spec PW_BLOCKSIZE (length a)); [lia|reflexivity].
Qed.

Lemma pairwise_sum_split (fuel : nat) (a : list A) :
  PW_BLOCKSIZE < length a ->
  pairwise_sum (S fuel) a =
  nadd (pairwise_sum fuel (firstn (length a / 2 - (length a / 2) mod 8) a))
       (pairwise_sum fuel (skipn (length a / 2 - (length a / 2) mod 8) a)).
Proof.
  intros H. cbn [pairwise_sum].
  destruct (Nat.ltb_spec PW_BLOCKSIZE (length a)); [reflexivity|lia].
Qed.

(** On fewer than eight elements [np.sum] is the loop from the left. *)
Lemma np_sum_short (a : list A) :
  length a < 8 -> np_sum a = nadd nzero (fold_left nadd a nzero).
Proof.
  intros H. unfold np_sum.
  rewrite pairwise_sum_block by (unfold PW_BLOCKSIZE; lia).
  now rewrite block_sum_short.
Qed.

(** The cut of a long array leaves two shorter, non-empty parts. *)
Lemma cut_point_inside (n : nat) :
  PW_BLOCKSIZE < n ->
  0 < n / 2 - (n / 2) mod 8 < n.
Proof.
  unfold PW_BLOCKSIZE. intros H.
  pose proof (Nat.div_mod_eq n 2) as E2.
  pose proof (Nat.mod_upper_bound n 2 ltac:(lia)) as B2.
  pose proof (Nat.mod_upper_bound (n / 2) 8 ltac:(lia)) as B8.
  lia.
Qed.

(** The counter of [pairwise_sum] is large enough at the length of the
    array: any larger counter gives the same sum. *)
Lemma pairwise_sum_fuel (fuel : nat) :
  forall a : list A,
  length a <= fuel -> pairwise_sum fuel a = pairwise_sum (length a) a.
Proof.
  induction fuel as [fuel IH] using lt_wf_ind. intros a Hle.
  destruct (Nat.le_gt_cases (length a) PW_BLOCKSIZE) as [Hb|Hb].
  - now rewrite !pairwise_sum_block.
  - pose proof (cut_point_inside (length a) Hb) as Hc.
    destruct fuel as [|fuel]; [unfold PW_BLOCKSIZE in Hb; lia|].
    destruct (length a) as [|n] eqn:En; [lia|].
    rewrite !pairwise_sum_split by (rewrite En; exact Hb).
    rewrite En.
    set (n2 := S n / 2 - (S n / 2) mod 8) in *.
    assert (L1 : length (firstn n2 a) = n2) by (rewrite length_firstn; lia).
    assert (L2 : length (skipn n2 a) = S n - n2) by (rewrite length_skipn; lia).
    rewrite (IH fuel) by lia. rewrite (IH fuel) by lia.
    rewrite (IH n) by lia. rewrite (IH n) by lia.
    reflexivity.
Qed.

(** A property that holds of zero and is kept by the addition holds of
    the sum of elements that have it, in whatever order they are added. *)
Section Closed.
Variable P : A -> Prop.
Hypothesis P_zero : P nzero.
Hypothesis P_add : forall x y, P x -> P y -> P (nadd x y).

Lemma fold_nadd_closed (a : list A) (acc : A) :
  P acc -> Forall P a -> P (fold_left nadd a acc).
Proof.
  revert acc; induction a as [|x a IH]; intros acc Hacc Ha; simpl; auto.
  inversion Ha; subst. apply IH; auto.
Qed.

Lemma unrolled_sum_closed (a : list A) :
  forall r0 r1 r2 r3 r4 r5 r6 r7,
  P r0 -> P r1 -> P r2 -> P r3 -> P r4 -> P r5 -> P r6 -> P r7 ->
  Forall P a -> P (unrolled_sum r0 r1 r2 r3 r4 r5 r6 r7 a).
Proof.
  induction a as [a Hlen|x0 x1 x2 x3 x4 x5 x6 x7 rest IH] using list_ind8;
    intros r0 r1 r2 r3 r4 r5 r6 r7 H0 H1 H2 H3 H4 H5 H6 H7 Ha.
  - rewrite unrolled_sum_short by exact Hlen.
    apply fold_nadd_closed; auto 10.
  - repeat match goal with
           | H : Forall P (_ :: _) |- _ =>
               apply Forall_cons_iff in H; destruct H
           end.
    cbn [unrolled_sum]. apply IH; auto.
Qed.

Lemma block_sum_closed (a : list A) : Forall P a -> P (block_sum a).
Proof.
  intros Ha.
  destruct (Nat.lt_ge_cases (length a) 8) as [Hlen|Hlen].
  - rewrite block_sum_short by exact Hlen. now apply fold_nadd_closed.
  - destruct a as [|x0 [|x1 [|x2 [|x3 [|x4 [|x5 [|x6 [|x7 rest]]]]]]]];
      simpl in Hlen; try lia.
    repeat match goal with
           | H : Forall P (_ :: _) |- _ =>
               apply Forall_cons_iff in H; destruct H
           end.
    cbn [block_sum]. apply unrolled_sum_closed; auto.
Qed.

Lemma pairwise_sum_closed (fuel : nat) :
  forall a : list A, Forall P a -> P (pairwise_sum fuel a).
Proof.
  induction fuel as [|fuel IH]; intros a Ha; [now apply block_sum_closed|].
  cbn [pairwise_sum]. destruct (PW_BLOCKSIZE <? length a).
  - rewrite <- (firstn_skipn (length a / 2 - (length a / 2) mod 8) a) in Ha.
    apply Forall_app in Ha as [Ha1 Ha2]. apply P_add; apply IH; assumption.
  - now apply block_sum_closed.
Qed.

Lemma np_sum_closed (a : list A) : Forall P a -> P (np_sum a).
Proof.
  intros Ha. unfold np_sum. apply P_add; [exact P_zero|].
  now apply pairwise_sum_closed.
Qed.

End Closed.

(** A property that is kept by the addition, also by the addition of a
    zero on either side, holds of the sum of a non-empty array of elements
    that have it. *)
Section Absorbing.
Variable P : A -> Prop.
Hypothesis P_add : forall x y, P x -> P y -> P (nadd x y).
Hypothesis P_zero_l : forall x, P x -> P (nadd nzero x).
Hypothesis P_zero_r : forall x, P x -> P (nadd x nzero).

Lemma block_sum_absorbing (a : list A) :
  a <> [] -> Forall P a -> P (block_sum a).
Proof.
  intros Hne Ha.
  destruct (Nat.lt_ge_cases (length a) 8) as [Hlen|Hlen].
  - rewrite block_sum_short by exact Hlen.
    destruct a as [|x a]; [congruence|].
    apply Forall_cons_iff in Ha as [Hx Ha]. cbn [fold_left].
    apply fold_nadd_closed; auto.
  - destruct a as [|x0 [|x1 [|x2 [|x3 [|x4 [|x5 [|x6 [|x7 rest]]]]]]]];
      simpl in Hlen; try lia.
    repeat match goal with
           | H : Forall P (_ :: _) |- _ =>
               apply Forall_cons_iff in H; destruct H
           end.
    cbn [block_sum]. apply unrolled_sum_closed; auto.
Qed.

Lemma pairwise_sum_nil (fuel : nat) : pairwise_sum fuel (@nil A) = nzero.
Proof. destruct fuel; reflexivity. Qed.

Lemma pairwise_sum_absorbing (fuel : nat) :
  forall a : list A, a <> [] -> Forall P a -> P (pairwise_sum fuel a).
Proof.
  induction fuel as [|fuel IH]; intros a Hne Ha;
    [now apply block_sum_absorbing|].
  cbn [pairwise_sum]. destruct (PW_BLOCKSIZE <? length a);
    [|now apply block_sum_absorbing].
  set (n2 := length a / 2 - (length a / 2) mod 8).
  pose proof (firstn_skipn n2 a) as E.
  rewrite <- E in Ha. apply Forall_app in Ha as [Ha1 Ha2].
  destruct (firstn n2 a) as [|x l1] eqn:E1;
    destruct (skipn n2 a) as [|y l2] eqn:E2.
  - simpl in E; congruence.
  - rewrite pairwise_sum_nil. apply P_zero_l, IH; [discriminate|assumption].
  - rewrite pairwise_sum_nil. apply P_zero_r, IH; [discriminate|assumption].
  - apply P_add; apply IH; try discriminate; assumption.
Qed.

Lemma np_sum_absorbing (a : list A) :
  a <> [] -> Forall P a -> P (np_sum a).
Proof.
  intros Hne Ha. unfold np_sum. now apply P_zero_l, pairwise_sum_absorbing.
Qed.

End Absorbing.

End Summation.

(** In binary64 the order shows. Eight samples 0.1 add up to 0.8 in numpy's
    order and to the number below 0.8 from the left; the 200 samples 0.0,
    0.1, ..., 19.9, more than a block, add up to 1990 in numpy's order and
    to the number above 1990 from the left. *)
Lemma np_sum_order_shows :
  let seg8 := repeat (float_of_decimal 1 1) 8 in
  let seg200 := map (fun i => float_of_decimal (Z.of_nat i) 1) (seq 0 200) in
  np_sum seg8 = float_of_decimal 8 1 /\
  np_sum seg8 = S754_finite false 7205759403792794 (-53) /\
  fold_left fadd seg8 (S754_zero false) =
    S754_finite false 7205759403792793 (-53) /\
  np_sum seg200 = float_of_Z 1990 /\
  np_sum seg200 = S754_finite false 8752112557096960 (-42) /\
  fold_left fadd seg200 (S754_zero false) =
    S754_finite false 8752112557096961 (-42).
Proof. repeat split; vm_compute; reflexivity. Qed.

(* ================================================================== *)
(** * Division by a zero standard deviation *)

Lemma fdiv_by_zero (a z : float) :
  is_zero z = true -> is_finite (fdiv a z) = false.
Proof.
  destruct z; try discriminate. intros _.
  destruct a; reflexivity.
Qed.

Lemma fsub_non_finite (x y : float) :
  is_finite x = false -> is_finite y = false -> is_finite (fsub y x) = false.
Proof.
  destruct x as [| [|] | |]; try discriminate;
    destruct y as [| [|] | |]; try discriminate; reflexivity.
Qed.

Lemma fabs_non_finite (x : float) :
  is_finite x = false -> pinf_or_nan (fabs x).
Proof.
  destruct x; try discriminate; intros _; [left|right]; reflexivity.
Qed.

Lemma fadd_pinf_or_nan (x y : float) :
  pinf_or_nan x -> pinf_or_nan y -> pinf_or_nan (fadd x y).
Proof.
  intros [->| ->] [->| ->]; [left|right|right|right]; reflexivity.
Qed.

Lemma fadd_zero_pinf_or_nan (y : float) :
  pinf_or_nan y -> pinf_or_nan (fadd (S754_zero false) y).
Proof. intros [->| ->]; [left|right]; reflexivity. Qed.

Lemma pinf_or_nan_non_finite (x : float) : pinf_or_nan x -> non_finite x.
Proof. intros [->| ->]; reflexivity. Qed.

Lemma fadd_pinf_or_nan_zero (x : float) :
  pinf_or_nan x -> pinf_or_nan (fadd x (S754_zero false)).
Proof. intros [->| ->]; [left|right]; reflexivity. Qed.

(** In whatever order numpy adds them, values that are all positive
    infinity or NaN add up to positive infinity or NaN. *)
Lemma np_sum_pinf_or_nan (l : list float) :
  l <> [] -> Forall pinf_or_nan l -> pinf_or_nan (np_sum l).
Proof.
  apply (np_sum_absorbing pinf_or_nan).
  - exact fadd_pinf_or_nan.
  - exact fadd_zero_pinf_or_nan.
  - exact fadd_pinf_or_nan_zero.
Qed.

Lemma np_diff_non_finite (l : list float) :
  Forall non_finite l -> Forall non_finite (np_diff l).
Proof.
  induction l as [|x [|y l] IH]; intros H; simpl; auto.
  inversion H as [|? ? Hx H']; subst. inversion H' as [|? ? Hy _]; subst.
  constructor; [now apply fsub_non_finite | now apply IH].
Qed.

Lemma np_diff_two (x y : float) (l : list float) : np_diff (x :: y :: l) <> [].
Proof. simpl; discriminate. Qed.

Lemma normalize_zero_std (seg : list float) :
  is_zero (np_std seg) = true -> Forall non_finite (normalize_channel seg).
Proof.
  intros Hz. unfold normalize_channel.
  apply Forall_map, Forall_forall. intros x _.
  now apply fdiv_by_zero.
Qed.

(** The line length of a segment of at least two samples whose computed
    standard deviation is zero is positive infinity or NaN. *)
Lemma line_length_zero_std (seg : list float) :
  is_zero (np_std seg) = true ->
  2 <= length seg ->
  pinf_or_nan (calculate_line_length (normalize_channel seg)).
Proof.
  intros Hz Hlen. unfold calculate_line_length.
  pose proof (normalize_zero_std seg Hz) as Hnf.
  assert (Hn : 2 <= length (normalize_channel seg))
    by (unfold normalize_channel; now rewrite length_map).
  destruct (normalize_channel seg) as [|x [|y l]]; simpl in Hn; try lia.
  apply np_sum_pinf_or_nan.
  - intros E. apply map_eq_nil in E. now apply np_diff_two in E.
  - apply Forall_map.
    eapply Forall_impl; [|apply np_diff_non_finite, Hnf].
    intros a Ha. now apply fabs_non_finite.
Qed.

(** The line length of a single sample is the empty sum. *)
Lemma line_length_single (x : float) :
  calculate_line_length (normalize_channel [x]) = S754_zero false.
Proof. reflexivity. Qed.

(** C8 (as amended). For an accepted interval in which the computed
    standard deviation of some channel's slice is zero, the row is emitted
    without an exception, and the channel's line-length column holds the
    value computed from the division by that zero as it is: positive
    infinity or NaN, so a non-finite value, when the slice has at least two
    samples, and the empty sum 0.0 when the slice is a single sample. *)
Theorem zero_std_line_length (base : pystr) (sess : session) (iv : interval)
    (s e i : nat) (l : pystr) (ch : list float) :
  map_interval iv (sampling_rate sess) (shape1 (signals sess))
    = Some (Accepted s e) ->
  NoDup (labels sess) ->
  length (labels sess) = length (signals sess) ->
  nth_error (labels sess) i = Some l ->
  nth_error (signals sess) i = Some ch ->
  is_zero (np_std (slice s e ch)) = true ->
  exists r v,
    process_interval base sess iv = Appends r /\
    dict_get (l ++ LINE_LENGTH) r = Some (VFloat v) /\
    v = calculate_line_length (normalize_channel (slice s e ch)) /\
    (2 <= length (slice s e ch) ->
     (v = S754_infinity false \/ v = S754_nan) /\ is_finite v = false) /\
    (length (slice s e ch) = 1 -> v = S754_zero false).
Proof.
  intros Hm Hnd Hlen Hl Hch Hz.
  destruct (accepted_columns base sess iv s e i l ch Hm Hnd Hlen Hl Hch)
    as (r & Hr & Hll & _).
  exists r, (calculate_line_length (normalize_channel (slice s e ch))).
  repeat split; auto.
  - now apply line_length_zero_std.
  - now apply pinf_or_nan_non_finite, line_length_zero_std.
  - intros H1. destruct (slice s e ch) as [|x [|y t]]; try discriminate.
    apply line_length_single.
Qed.

Lemma zero_std_line_length_witness :
  is_zero (np_std (slice 2 5 (repeat (float_of_Z 7) 10))) = true /\
  exists r v,
    process_interval (str "rec") small_session seconds_2_to_5 = Appends r /\
    dict_get (str "B" ++ LINE_LENGTH) r = Some (VFloat v) /\
    v = calculate_line_length
          (normalize_channel (slice 2 5 (repeat (float_of_Z 7) 10))) /\
    (2 <= length (slice 2 5 (repeat (float_of_Z 7) 10)) ->
     (v = S754_infinity false \/ v = S754_nan) /\ is_finite v = false) /\
    (length (slice 2 5 (repeat (float_of_Z 7) 10)) = 1 ->
     v = S754_zero false).
Proof.
  split; [vm_compute; reflexivity|].
  exact (zero_std_line_length (str "rec") small_session seconds_2_to_5 2 5 1
           (str "B") (repeat (float_of_Z 7) 10)
           eq_refl small_session_labels_nodup eq_refl eq_refl eq_refl eq_refl).
Defined.

(** C8 as stated fails on a slice of one sample: its standard deviation is
    zero and the normalized sample is NaN, but the line length sums no
    difference at all and is the finite value 0.0. *)
Lemma single_sample_line_length_finite :
  map_interval first_second (sampling_rate small_session)
    (shape1 (signals small_session)) = Some (Accepted 0 1) /\
  np_std (slice 0 1 (repeat (float_of_Z 7) 10)) = S754_zero false /\
  normalize_channel (slice 0 1 (repeat (float_of_Z 7) 10)) = [S754_nan] /\
  exists r,
    process_interval (str "rec") small_session first_second = Appends r /\
    dict_get (str "B" ++ LINE_LENGTH) r = Some (VFloat (S754_zero false)) /\
    is_finite (S754_zero false) = true.
Proof.
  repeat split; try (vm_compute; reflexivity).
  eexists. repeat split; vm_compute; reflexivity.
Qed.

(** Equal samples need not even give a zero standard deviation: the mean
    of three samples 0.1 is rounded away from 0.1, the deviations are not
    zero, and the line length is 0.0. *)
Lemma equal_samples_nonzero_std :
  let seg := repeat (float_of_decimal 1 1) 3 in
  is_zero (np_std seg) = false /\
  calculate_line_length (normalize_channel seg) = S754_zero false.
Proof. split; vm_compute; reflexivity. Qed.

(** Whether equal samples give a zero standard deviation depends on how
    their sum rounds in numpy's order of addition. Eight samples 0.1 add up
    to 0.8 exactly: the mean is 0.1, the standard deviation is zero and the
    line length is NaN. Ten samples 970.566 have a mean above 970.566: the
    standard deviation is not zero and the line length is 0.0. *)
Lemma equal_samples_numpy_order :
  let seg8 := repeat (float_of_decimal 1 1) 8 in
  let seg10 := repeat (float_of_decimal 970566 3) 10 in
  np_mean seg8 = float_of_decimal 1 1 /\
  is_zero (np_std seg8) = true /\
  calculate_line_length (normalize_channel seg8) = S754_nan /\
  np_mean seg10 = S754_finite false 8537188820192331 (-43) /\
  float_of_decimal 970566 3 = S754_finite false 8537188820192330 (-43) /\
  np_std seg10 = S754_finite false 4503599627370496 (-95) /\
  calculate_line_length (normalize_channel seg10) = S754_zero false.
Proof. repeat split; vm_compute; reflexivity. Qed.

(* ================================================================== *)
(** * Line length under a constant offset *)

Section ExactArithmetic.
Open Scope R_scope.


Lemma fold_plus_acc (seg : list R) (acc : R) :
  fold_left Rplus seg acc = acc + fold_left Rplus seg 0.
Proof.
  revert acc; induction seg as [|x seg IH]; intros acc; simpl.
  - ring.
  - rewrite (IH (acc + x)), (IH (0 + x)). ring.
Qed.

Lemma unrolled_sum_real (seg : list R) :
  forall r0 r1 r2 r3 r4 r5 r6 r7 : R,
  unrolled_sum r0 r1 r2 r3 r4 r5 r6 r7 seg =
  r0 + r1 + r2 + r3 + r4 + r5 + r6 + r7 + fold_left Rplus seg 0.
Proof.
  induction seg as [seg Hlen|x0 x1 x2 x3 x4 x5 x6 x7 rest IH] using list_ind8;
    intros r0 r1 r2 r3 r4 r5 r6 r7.
  - rewrite unrolled_sum_short by exact Hlen.
    cbn [nadd real_numeric]. rewrite fold_plus_acc. ring.
  - cbn [unrolled_sum]. rewrite IH. cbn [nadd real_numeric fold_left].
    rewrite (fold_plus_acc rest (_ + x7)). ring.
Qed.

Lemma block_sum_real (seg : list R) : block_sum seg = fold_left Rplus seg 0.
Proof.
  destruct (Nat.lt_ge_cases (length seg) 8) as [Hlen|Hlen].
  - now rewrite block_sum_short.
  - destruct seg as [|x0 [|x1 [|x2 [|x3 [|x4 [|x5 [|x6 [|x7 rest]]]]]]]];
      simpl in Hlen; try lia.
    cbn [block_sum]. rewrite unrolled_sum_real. cbn [fold_left].
    rewrite (fold_plus_acc rest (_ + x7)). ring.
Qed.

Lemma pairwise_sum_real (fuel : nat) :
  forall seg : list R, pairwise_sum fuel seg = fold_left Rplus seg 0.
Proof.
  induction fuel as [|fuel IH]; intros seg; [apply block_sum_real|].
  cbn [pairwise_sum]. destruct (PW_BLOCKSIZE <? length seg);
    [|apply block_sum_real].
  rewrite !IH. cbn [nadd real_numeric].
  set (n2 := (length seg / 2 - (length seg / 2) mod 8)%nat).
  transitivity (fold_left Rplus (firstn n2 seg ++ skipn n2 seg) 0);
    [|now rewrite firstn_skipn].
  rewrite fold_left_app, (fold_plus_acc (skipn n2 seg) (fold_left _ _ _)).
  reflexivity.
Qed.

(** Without rounding the order of the additions does not matter: numpy's
    sum is the sum from the left. *)
Lemma np_sum_real (seg : list R) : np_sum seg = fold_left Rplus seg 0.
Proof.
  unfold np_sum. rewrite pairwise_sum_real. cbn [nadd nzero real_numeric].
  ring.
Qed.




End ExactArithmetic.




(* ================================================================== *)
(** * The parser on concrete logs *)

Lemma unclosed_start_dropped_witness :
  @classify decimal_builtins (str "1.0 k 5 first") =
    Event (float_of_Z 1) 5 (Some (str "first")) /\
  forallb (@is_noise decimal_builtins) restart_mid = true /\
  @classify decimal_builtins (str "2.0 k 5 second") =
    Event (float_of_Z 2) 5 (Some (str "second")) /\
  fst (@parse_log_file decimal_builtins
         {| yielded := restart_pre ++ str "1.0 k 5 first" :: restart_mid ++
                       str "2.0 k 5 second" :: restart_post;
            raised := false |}) =
  fst (@parse_log_file decimal_builtins
         {| yielded := restart_pre ++ str "2.0 k 5 second" :: restart_post;
            raised := false |}) /\
  In (UnclosedInterval (Some (str "first")))
     (snd (@parse_log_file decimal_builtins
             {| yielded := restart_pre ++ str "1.0 k 5 first" :: restart_mid ++
                           str "2.0 k 5 second" :: restart_post;
                raised := false |})).
Proof.
  pose proof (@unclosed_start_dropped decimal_builtins
                restart_pre (str "1.0 k 5 first") (float_of_Z 1)
                (Some (str "first")) restart_mid (str "2.0 k 5 second")
                (float_of_Z 2) (Some (str "second")) restart_post false
                eq_refl eq_refl eq_refl) as (H1 & _ & H3).
  repeat split; try reflexivity; assumption.
Defined.

Lemma trailing_start_vanishes_witness :
  @classify decimal_builtins (str "3.0 k 5 b") =
    Event (float_of_Z 3) 5 (Some (str "b")) /\
  forallb (@is_noise decimal_builtins) open_ended_post = true /\
  fst (@parse_log_file decimal_builtins
         {| yielded := open_ended_pre ++ str "3.0 k 5 b" :: open_ended_post;
            raised := false |}) =
  fst (@parse_log_file decimal_builtins
         {| yielded := open_ended_pre; raised := false |}) /\
  current_start (@final decimal_builtins initial
                   (open_ended_pre ++ str "3.0 k 5 b" :: open_ended_post))
  = Some (float_of_Z 3).
Proof.
  pose proof (@trailing_start_vanishes decimal_builtins
                open_ended_pre (str "3.0 k 5 b") (float_of_Z 3)
                (Some (str "b")) open_ended_post false
                eq_refl eq_refl) as (H1 & H2 & _).
  repeat split; try reflexivity; assumption.
Defined.

Lemma malformed_line_keeps_state_witness :
  @malformed decimal_builtins (str "1.0 k five") /\
  fst (@parse_log_file decimal_builtins
         {| yielded := open_ended_pre ++ str "1.0 k five" :: open_ended_post;
            raised := false |}) =
  fst (@parse_log_file decimal_builtins
         {| yielded := open_ended_pre ++ open_ended_post; raised := false |}).
Proof.
  assert (H : @malformed decimal_builtins (str "1.0 k five"))
    by (right; right; reflexivity).
  split; [exact H|].
  apply (proj2 (@malformed_line_keeps_state decimal_builtins
                  (str "1.0 k five") H)).
Defined.

(** C9 as stated fails when the read error comes after lines that
    completed an interval: the error is printed and the interval read so
    far is returned, not the empty list. *)
Lemma read_failure_keeps_intervals :
  raised broken_log = true /\
  @parse_log_file decimal_builtins broken_log =
    ([{| label := Some (str "a");
         start := float_of_Z 1; end_ := float_of_Z 2 |}],
     [LogReadError]) /\
  fst (@parse_log_file decimal_builtins broken_log) <> [].
Proof.
  repeat split; try (vm_compute; reflexivity). vm_compute; discriminate.
Qed.

(* ================================================================== *)
(** * Further properties of the log parser *)

Section ParserMore.
Context {B : Builtins}.

Lemma silent_line_removable (raw : pystr) (pre post : list pystr) (r : bool) :
  parse_line (final initial pre) raw = (final initial pre, []) ->
  parse_log_file {| yielded := pre ++ raw :: post; raised := r |} =
  parse_log_file {| yielded := pre ++ post; raised := r |}.
Proof.
  intros H.
  apply injective_projections.
  - rewrite !parse_log_file_intervals, !final_app, final_cons, H. reflexivity.
  - rewrite !parse_log_file_messages, !output_app, output_cons, H. reflexivity.
Qed.

(** X1. A data line whose marker code is neither 5 nor 6 does nothing at
    all: the state is unchanged and nothing is printed, so the log with
    the line removed gives the same intervals and the same messages. *)
Theorem other_marker_ignored (raw : pystr) (t : float) (m : Z)
    (l : option pystr) :
  classify raw = Event t m l ->
  m <> 5%Z -> m <> 6%Z ->
  (forall st, parse_line st raw = (st, [])) /\
  (forall pre post r,
     parse_log_file {| yielded := pre ++ raw :: post; raised := r |} =
     parse_log_file {| yielded := pre ++ post; raised := r |}).
Proof.
  intros Hc H5 H6.
  assert (K : forall st, parse_line st raw = (st, [])).
  { intros st. rewrite (parse_line_event st raw t m l Hc). unfold on_event.
    destruct (Z.eqb_spec m 5); [contradiction|].
    destruct (Z.eqb_spec m 6); [contradiction|]. reflexivity. }
  split; [exact K|].
  intros pre post r. apply silent_line_removable, K.
Qed.

(** X2. An end marker met while no interval is open is ignored without a
    message: the log with that line removed gives the same intervals and
    the same messages. *)
Theorem idle_end_marker_ignored (pre : list pystr) (raw : pystr) (t : float)
    (l : option pystr) (post : list pystr) (r : bool) :
  classify raw = Event t 6 l ->
  current_start (final initial pre) = None ->
  parse_log_file {| yielded := pre ++ raw :: post; raised := r |} =
  parse_log_file {| yielded := pre ++ post; raised := r |}.
Proof.
  intros Hc Hidle. apply silent_line_removable.
  rewrite (parse_line_event _ raw t 6 l Hc). unfold on_event.
  simpl. now rewrite Hidle.
Qed.

Lemma count_unclosed_app o1 o2 :
  count_unclosed (o1 ++ o2) = count_unclosed o1 + count_unclosed o2.
Proof. unfold count_unclosed. now rewrite filter_app, length_app. Qed.

Lemma start_accounting_from (lines : list pystr) :
  forall st,
  count_marker 5 lines + length (intervals st) + open_count st =
  length (intervals (final st lines)) + count_unclosed (output st lines)
  + open_count (final st lines) /\
  length (intervals (final st lines)) <=
  length (intervals st) + count_marker 6 lines.
Proof.
  induction lines as [|raw lines IH]; intros st.
  - rewrite final_nil. unfold output; simpl. unfold count_unclosed; simpl. lia.
  - rewrite final_cons, output_cons, count_unclosed_app.
    destruct (IH (fst (parse_line st raw))) as [IH1 IH2].
    cbn [count_marker]. unfold parse_line in *.
    destruct (classify raw) as [|line|t m l]; cbn [fst snd] in *.
    + unfold count_unclosed at 1; simpl. lia.
    + unfold count_unclosed at 1; simpl. lia.
    + unfold on_event in *.
      destruct (Z.eqb_spec m 5) as [->|N5]; cbn [fst snd] in *.
      * change (5 =? 6)%Z with false.
        unfold open_count in *; cbn [current_start intervals] in *.
        destruct (current_start st); unfold count_unclosed at 1; simpl; lia.
      * destruct (Z.eqb_spec m 6) as [->|N6].
        -- change (6 =? 6)%Z with true in *.
           unfold open_count in *.
           destruct (current_start st) as [t0|] eqn:Ecs; rewrite ?Ecs in *;
             cbn [fst snd] in *; cbn [current_start intervals] in *;
             rewrite ?Ecs in IH1;
             rewrite ?length_app in *; cbn [length] in *;
             unfold count_unclosed at 1; cbn [filter length]; lia.
        -- cbn [fst snd] in *. unfold count_unclosed at 1; simpl. lia.
Qed.

(** X3. Every start marker of a log is accounted for: the number of
    marker-5 lines equals the number of intervals returned, plus the
    number of unclosed-interval warnings printed, plus one if the parser
    is still open at the end of the file. The number of intervals never
    exceeds the number of marker-6 lines. *)
Theorem start_marker_accounting (lines : list pystr) (r : bool) :
  count_marker 5 lines =
  length (fst (parse_log_file {| yielded := lines; raised := r |}))
  + count_unclosed (snd (parse_log_file {| yielded := lines; raised := r |}))
  + open_count (final initial lines) /\
  length (fst (parse_log_file {| yielded := lines; raised := r |}))
  <= count_marker 6 lines.
Proof.
  rewrite parse_log_file_intervals, parse_log_file_messages,
    count_unclosed_app.
  destruct (start_accounting_from lines initial) as [H1 H2].
  change (length (intervals initial)) with 0 in H1, H2.
  change (open_count initial) with 0 in H1.
  assert (E : count_unclosed (if r then [LogReadError] else []) = 0)
    by (destruct r; reflexivity).
  rewrite E. lia.
Qed.

(** X4. Reading more lines never changes the intervals already returned:
    the intervals of a log are a prefix of the intervals of any longer
    log that starts with it. *)
Theorem intervals_of_prefix (l1 l2 : list pystr) (r1 r2 : bool) :
  exists more,
    fst (parse_log_file {| yielded := l1 ++ l2; raised := r2 |}) =
    fst (parse_log_file {| yielded := l1; raised := r1 |}) ++ more.
Proof.
  rewrite !parse_log_file_intervals, final_app.
  generalize (final initial l1) as st.
  induction l2 as [|raw l2 IH]; intros st.
  - exists []. now rewrite final_nil, app_nil_r.
  - rewrite final_cons.
    destruct (IH (fst (parse_line st raw))) as [more ->].
    unfold parse_line.
    destruct (classify raw) as [|line|t m l]; cbn [fst]; eauto.
    unfold on_event.
    destruct (m =? 5)%Z; cbn [fst intervals]; eauto.
    destruct (m =? 6)%Z; cbn [fst]; eauto.
    destruct (current_start st); cbn [fst intervals]; eauto.
    rewrite <- app_assoc. eauto.
Qed.

End ParserMore.

Section Provenance.
Context {B : Builtins}.

Lemma made_by_app p x iv : made_by p iv -> made_by (p ++ x) iv.
Proof.
  intros (l1 & s & l2 & e & lb & l3 & -> & Hs & Hn & He).
  exists l1, s, l2, e, lb, (l3 ++ x).
  repeat split; auto.
  rewrite <- app_assoc. cbn [app]. rewrite <- app_assoc. reflexivity.
Qed.

Lemma open_by_noise p st raw :
  is_noise raw = true -> open_by p st -> open_by (p ++ [raw]) st.
Proof.
  intros Hr H t Ht. destruct (H t Ht) as (l1 & s & l2 & -> & Hs & Hn).
  exists l1, s, (l2 ++ [raw]). repeat split; auto.
  - rewrite <- app_assoc. reflexivity.
  - rewrite forallb_app, Hn. simpl. now rewrite Hr.
Qed.

Lemma provenance_step p st raw :
  (forall iv, In iv (intervals st) -> made_by p iv) ->
  open_by p st ->
  (forall iv, In iv (intervals (fst (parse_line st raw))) ->
     made_by (p ++ [raw]) iv) /\
  open_by (p ++ [raw]) (fst (parse_line st raw)).
Proof.
  intros Hiv Hop.
  assert (Hold : forall iv, In iv (intervals st) -> made_by (p ++ [raw]) iv)
    by (intros iv H; apply made_by_app, Hiv, H).
  unfold parse_line.
  destruct (classify raw) as [|line|t m l] eqn:Hc; cbn [fst].
  - split; auto. apply open_by_noise; auto. unfold is_noise. now rewrite Hc.
  - split; auto. apply open_by_noise; auto. unfold is_noise. now rewrite Hc.
  - unfold on_event.
    destruct (Z.eqb_spec m 5) as [->|N5]; cbn [fst].
    + split; auto.
      intros t' Ht'. cbn in Ht'. injection Ht' as <-.
      exists p, raw, []. repeat split; auto.
    + destruct (Z.eqb_spec m 6) as [->|N6].
      * destruct (current_start st) as [t0|] eqn:Ecs; cbn [fst].
        -- split.
           ++ intros iv Hin. cbn [intervals] in Hin.
              apply in_app_or in Hin as [Hin|[<-|[]]]; auto.
              destruct (Hop t0 Ecs) as (l1 & s & l2 & -> & Hs & Hn).
              exists l1, s, l2, raw, l, []. repeat split; auto.
              rewrite <- app_assoc. reflexivity.
           ++ intros t' Ht'. discriminate.
        -- split; auto. intros t' Ht'. congruence.
      * cbn [fst]. split; auto.
        apply open_by_noise; auto. unfold is_noise. rewrite Hc.
        destruct (Z.eqb_spec m 5); [contradiction|].
        destruct (Z.eqb_spec m 6); [contradiction|]. reflexivity.
Qed.

Lemma provenance_from (lines : list pystr) :
  forall p st,
  (forall iv, In iv (intervals st) -> made_by p iv) ->
  open_by p st ->
  forall iv, In iv (intervals (final st lines)) -> made_by (p ++ lines) iv.
Proof.
  induction lines as [|raw lines IH]; intros p st Hiv Hop iv Hin.
  - rewrite final_nil in Hin. rewrite app_nil_r. auto.
  - rewrite final_cons in Hin.
    destruct (provenance_step p st raw Hiv Hop) as [H1 H2].
    replace (p ++ raw :: lines) with ((p ++ [raw]) ++ lines)
      by (rewrite <- app_assoc; reflexivity).
    eapply IH; eauto.
Qed.

(** X5. Every interval returned comes from the log: its label and start
    are those of a marker-5 line, its end is the time of a later
    marker-6 line, and no start or end marker stands between the two. *)
Theorem intervals_come_from_lines (lines : list pystr) (r : bool)
    (iv : interval) :
  In iv (fst (parse_log_file {| yielded := lines; raised := r |})) ->
  exists l1 s l2 e lb l3,
    lines = l1 ++ s :: l2 ++ e :: l3 /\
    classify s = Event (start iv) 5 (label iv) /\
    forallb is_noise l2 = true /\
    classify e = Event (end_ iv) 6 lb.
Proof.
  rewrite parse_log_file_intervals. intros Hin.
  apply (provenance_from lines [] initial); auto.
  - intros iv' [].
  - intros t Ht. discriminate.
Qed.

End Provenance.

(* ================================================================== *)
(** * Whitespace around a line *)

Lemma forallb_rev {A} (f : A -> bool) (l : list A) :
  forallb f (rev l) = forallb f l.
Proof.
  induction l as [|x l IH]; simpl; auto.
  rewrite forallb_app, IH. simpl. rewrite andb_true_r. apply andb_comm.
Qed.

Lemma lstrip_app_space (w s : pystr) :
  forallb isspace w = true -> lstrip (w ++ s) = lstrip s.
Proof.
  induction w as [|c w IH]; simpl; auto.
  intros H. apply andb_prop in H as [Hc Hw]. rewrite Hc. auto.
Qed.

Lemma lstrip_app_kept (s w : pystr) :
  lstrip s <> [] -> lstrip (s ++ w) = lstrip s ++ w.
Proof.
  induction s as [|c s IH]; simpl; [congruence|].
  destruct (isspace c); auto.
Qed.

Lemma lstrip_app_blank (s w : pystr) :
  lstrip s = [] -> forallb isspace w = true -> lstrip (s ++ w) = [].
Proof.
  induction s as [|c s IH]; simpl; intros Hs Hw.
  - rewrite <- (app_nil_r w). rewrite lstrip_app_space; auto.
  - destruct (isspace c); [auto|discriminate].
Qed.

Lemma strip_padding (w1 s w2 : pystr) :
  forallb isspace w1 = true -> forallb isspace w2 = true ->
  strip (w1 ++ s ++ w2) = strip s.
Proof.
  intros H1 H2. unfold strip. rewrite lstrip_app_space by assumption.
  destruct (lstrip s) as [|c t] eqn:E.
  - rewrite lstrip_app_blank; auto.
  - rewrite lstrip_app_kept by congruence. rewrite E.
    rewrite rev_app_distr, lstrip_app_space; auto.
    now rewrite forallb_rev.
Qed.

(** X6. Whitespace before and after a line, such as indentation and the
    line terminator, does not change what the parser makes of the line:
    the same event, the same skip, or the same parse error. *)
Theorem classify_ignores_padding {B : Builtins} (w1 raw w2 : pystr) :
  forallb isspace w1 = true ->
  forallb isspace w2 = true ->
  classify (w1 ++ raw ++ w2) = classify raw /\
  forall st, parse_line st (w1 ++ raw ++ w2) = parse_line st raw.
Proof.
  intros H1 H2.
  assert (E : classify (w1 ++ raw ++ w2) = classify raw)
    by (unfold classify; now rewrite strip_padding).
  split; [exact E|].
  intros st. unfold parse_line. now rewrite E.
Qed.

Lemma classify_ignores_padding_witness :
  forallb isspace (str "  ") = true /\
  forallb isspace [13%N; 10%N] = true /\
  @classify decimal_builtins (str "  " ++ str "2.5 k 5 on" ++ [13%N; 10%N]) =
  @classify decimal_builtins (str "2.5 k 5 on").
Proof.
  split; [reflexivity|split; [reflexivity|]].
  apply (@classify_ignores_padding decimal_builtins (str "  ")
           (str "2.5 k 5 on") [13%N; 10%N] eq_refl eq_refl).
Defined.

(* ================================================================== *)
(** * The parser extras on concrete logs *)

Lemma other_marker_ignored_witness :
  @classify decimal_builtins (str "1.5 k 9") =
    Event (float_of_decimal 15 1) 9 None /\
  (forall st, @parse_line decimal_builtins st (str "1.5 k 9") = (st, [])).
Proof.
  split; [reflexivity|].
  apply (@other_marker_ignored decimal_builtins (str "1.5 k 9")
           (float_of_decimal 15 1) 9 None eq_refl);
    discriminate.
Defined.

Lemma idle_end_marker_ignored_witness :
  @classify decimal_builtins (str "2.5 k 6") =
    Event (float_of_decimal 25 1) 6 None /\
  current_start (@final decimal_builtins initial open_ended_pre) = None /\
  @parse_log_file decimal_builtins
    {| yielded := open_ended_pre ++ str "2.5 k 6" :: open_ended_post;
       raised := false |} =
  @parse_log_file decimal_builtins
    {| yielded := open_ended_pre ++ open_ended_post; raised := false |}.
Proof.
  split; [reflexivity|split; [reflexivity|]].
  apply (@idle_end_marker_ignored decimal_builtins open_ended_pre
           (str "2.5 k 6") (float_of_decimal 25 1) None open_ended_post false
           eq_refl eq_refl).
Defined.

Lemma intervals_come_from_lines_witness :
  exists l1 s l2 e lb l3,
    two_pairs_log = l1 ++ s :: l2 ++ e :: l3 /\
    @classify decimal_builtins s =
      Event (float_of_decimal 30 1) 5 None /\
    forallb (@is_noise decimal_builtins) l2 = true /\
    @classify decimal_builtins e = Event (float_of_decimal 45 1) 6 lb.
Proof.
  apply (@intervals_come_from_lines decimal_builtins two_pairs_log false
           {| label := None;
              start := float_of_decimal 30 1; end_ := float_of_decimal 45 1 |}).
  right; left; reflexivity.
Defined.

(* ================================================================== *)
(** * Further properties of the session processor *)

(** X7. An accepted interval always has a non-empty sample range inside
    the signal: start_idx < end_idx <= total, so every channel slice of a
    signal of that length holds end_idx - start_idx samples, at least
    one. *)
Theorem accepted_range_in_bounds (iv : interval) (sr : float)
    (total s e : nat) :
  map_interval iv sr (Some total) = Some (Accepted s e) ->
  s < e <= total /\
  forall row : list float,
    length row = total ->
    length (slice s e row) = e - s /\ 1 <= length (slice s e row).
Proof.
  unfold map_interval.
  destruct (time_to_index (start iv) sr) as [zs|]; [|discriminate].
  destruct (time_to_index (end_ iv) sr) as [ze|]; [|discriminate].
  destruct (Z.ltb_spec zs 0); [discriminate|].
  destruct (Z.gtb_spec ze (Z.of_nat total)); [discriminate|].
  destruct (Z.geb_spec zs ze); [discriminate|]. cbn [orb].
  intros [= <- <-].
  assert (Hb : Z.to_nat zs < Z.to_nat ze <= total) by lia.
  split; [exact Hb|].
  intros row Hrow. rewrite slice_length by lia. lia.
Qed.

Lemma accepted_range_in_bounds_witness :
  map_interval seconds_2_to_5 (float_of_Z 1) (Some 10) = Some (Accepted 2 5) /\
  2 < 5 <= 10.
Proof.
  split; [reflexivity|].
  apply (accepted_range_in_bounds seconds_2_to_5 (float_of_Z 1) 10 2 5 eq_refl).
Defined.

Lemma dict_set_app_fresh k v d1 d2 :
  ~ In k (keys d1) -> dict_set k v (d1 ++ d2) = d1 ++ dict_set k v d2.
Proof.
  induction d1 as [|[k' v'] d1 IH]; simpl; auto.
  intros H. destruct (pystr_eq_dec k k') as [->|_].
  - exfalso; auto.
  - rewrite IH; auto.
Qed.

Lemma dict_set_keys k v d k' :
  In k' (keys (dict_set k v d)) -> k' = k \/ In k' (keys d).
Proof.
  induction d as [|[k0 v0] d IH]; simpl.
  - intros [<-|[]]; auto.
  - destruct (pystr_eq_dec k k0) as [->|_]; simpl.
    + intros [<-|H]; auto.
    + intros [<-|H]; auto. destruct (IH H); auto.
Qed.

Lemma add_features_keeps_metadata (lbls : list pystr) :
  forall i lls means meta cols r,
  (forall l, ~ In (l ++ LINE_LENGTH) (keys meta) /\
             ~ In (l ++ MEAN) (keys meta)) ->
  add_features lbls i lls means (meta ++ cols) = Some r ->
  exists cols',
    r = meta ++ cols' /\
    forall k, In k (keys cols') ->
      In k (keys cols) \/
      exists l, In l lbls /\ (k = l ++ LINE_LENGTH \/ k = l ++ MEAN).
Proof.
  induction lbls as [|l lbls IH]; intros i lls means meta cols r Hm H.
  - simpl in H. injection H as <-. exists cols. auto.
  - simpl in H.
    destruct (nth_error lls i) as [ll|]; [|discriminate].
    destruct (nth_error means i) as [m|]; [|discriminate].
    destruct (Hm l) as [F1 F2].
    rewrite (dict_set_app_fresh _ _ meta cols F1) in H.
    rewrite (dict_set_app_fresh _ _ meta _ F2) in H.
    destruct (IH _ _ _ _ _ _ Hm H) as (cols' & -> & Hk).
    exists cols'. split; auto.
    intros k Hin. destruct (Hk k Hin) as [Hold|(l' & Hl' & E)].
    + apply dict_set_keys in Hold as [->|Hold];
        [right; exists l; simpl; auto|].
      apply dict_set_keys in Hold as [->|Hold];
        [right; exists l; simpl; auto|auto].
    + right. exists l'. simpl; auto.
Qed.

Lemma row_shape (base : pystr) (sess : session) (iv : interval) (r : record) :
  process_interval base sess iv = Appends r ->
  exists cols,
    r = metadata base iv ++ cols /\
    forall k, In k (keys cols) ->
      exists l, In l (labels sess) /\
                (k = l ++ LINE_LENGTH \/ k = l ++ MEAN).
Proof.
  unfold process_interval.
  destruct (map_interval _ _ _) as [[|s e]|]; try discriminate.
  destruct (build_record base sess iv s e) as [r'|] eqn:E; [|discriminate].
  intros [= ->]. unfold build_record in E.
  rewrite <- (app_nil_r (metadata base iv)) in E.
  apply add_features_keeps_metadata in E.
  - destruct E as (cols & -> & Hk). exists cols. split; [reflexivity|].
    intros k Hin. destruct (Hk k Hin) as [[]|H]. exact H.
  - intros l. apply metadata_keys_not_features.
Qed.

(** X8. Whatever the channel labels are, repeated or not, a row keeps its
    five metadata columns File, Label, Start_Time, End_Time, Duration
    (end minus start) in front and unchanged, and every other column of
    the row is the line-length or mean column of one of the labels. *)
Theorem metadata_never_overwritten (base : pystr) (sess : session)
    (iv : interval) (r : record) :
  process_interval base sess iv = Appends r ->
  exists cols,
    r = [ (str "File", VStr base);
          (str "Label", VLabel (label iv));
          (str "Start_Time", VFloat (start iv));
          (str "End_Time", VFloat (end_ iv));
          (str "Duration", VFloat (fsub (end_ iv) (start iv))) ] ++ cols /\
    forall k, In k (keys cols) ->
      exists l, In l (labels sess) /\
                (k = l ++ LINE_LENGTH \/ k = l ++ MEAN).
Proof.
  unfold process_interval.
  destruct (map_interval _ _ _) as [[|s e]|]; try discriminate.
  destruct (build_record base sess iv s e) as [r'|] eqn:E; [|discriminate].
  intros [= ->]. unfold build_record in E.
  rewrite <- (app_nil_r (metadata base iv)) in E.
  apply add_features_keeps_metadata in E.
  - destruct E as (cols & -> & Hk). exists cols. split; [reflexivity|].
    intros k Hin. destruct (Hk k Hin) as [[]|H]. exact H.
  - intros l. apply metadata_keys_not_features.
Qed.

Lemma metadata_never_overwritten_witness :
  exists r cols,
    process_interval (str "rec") twin_session seconds_2_to_5 = Appends r /\
    r = [ (str "File", VStr (str "rec"));
          (str "Label", VLabel (Some (str "s")));
          (str "Start_Time", VFloat (float_of_Z 2));
          (str "End_Time", VFloat (float_of_Z 5));
          (str "Duration", VFloat (fsub (float_of_Z 5) (float_of_Z 2))) ]
        ++ cols.
Proof.
  destruct (process_interval (str "rec") twin_session seconds_2_to_5)
    as [| |r] eqn:E; try (vm_compute in E; discriminate).
  destruct (metadata_never_overwritten (str "rec") twin_session
              seconds_2_to_5 r E) as (cols & Hr & _).
  exists r, cols. split; [reflexivity|exact Hr].
Defined.

Lemma add_features_short (lbls : list pystr) :
  forall i lls means res,
  length lls = length means ->
  i <= length lls < i + length lbls ->
  add_features lbls i lls means res = None.
Proof.
  induction lbls as [|l lbls IH]; intros i lls means res Heq Hlt;
    simpl in *; [lia|].
  destruct (nth_error lls i) as [ll|] eqn:E1; auto.
  destruct (nth_error means i) as [m|] eqn:E2; auto.
  assert (i < length lls) by (apply nth_error_Some; congruence).
  apply IH; auto. lia.
Qed.

(** X9. When the session has more labels than channels, the first
    accepted interval raises (the index error of [line_lengths[i]]) and
    the session ends without rows, whatever was accepted before. *)
Theorem too_many_labels_raises (base : pystr) (sess : session)
    (iv : interval) (s e : nat) :
  map_interval iv (sampling_rate sess) (shape1 (signals sess))
    = Some (Accepted s e) ->
  length (signals sess) < length (labels sess) ->
  process_interval base sess iv = Raises /\
  forall rest results,
    process_intervals base sess (iv :: rest) results = (None, [ProcessError]).
Proof.
  intros Hm Hlen.
  assert (P : process_interval base sess iv = Raises).
  { unfold process_interval. rewrite Hm. unfold build_record.
    unfold normalize_data. rewrite add_features_short; auto.
    - now rewrite !length_map.
    - rewrite !length_map. split; [apply Nat.le_0_l|exact Hlen]. }
  split; [exact P|].
  intros rest results. simpl. now rewrite P.
Qed.

Lemma too_many_labels_raises_witness :
  map_interval seconds_2_to_5 (sampling_rate overlabelled_session)
    (shape1 (signals overlabelled_session)) = Some (Accepted 2 5) /\
  length (signals overlabelled_session) < length (labels overlabelled_session) /\
  process_interval (str "rec") overlabelled_session seconds_2_to_5 = Raises.
Proof.
  split; [reflexivity|split; [simpl; lia|]].
  apply (too_many_labels_raises (str "rec") overlabelled_session
           seconds_2_to_5 2 5 eq_refl).
  simpl; lia.
Defined.

Lemma process_interval_accepted base sess iv :
  match process_interval base sess iv with
  | Raises => True
  | Continue => accepted sess iv = false
  | Appends _ => accepted sess iv = true
  end.
Proof.
  unfold process_interval, accepted.
  destruct (map_interval _ _ _) as [[|s e]|]; auto.
  destruct (build_record _ _ _ _ _); auto.
Qed.

Lemma process_intervals_rows base sess (ivs : list interval) :
  forall results rs out,
  process_intervals base sess ivs results = (Some rs, out) ->
  exists rows,
    rs = results ++ rows /\
    Forall2 (fun iv r => process_interval base sess iv = Appends r)
            (filter (accepted sess) ivs) rows /\
    out = map BadInterval (filter (fun iv => negb (accepted sess iv)) ivs).
Proof.
  induction ivs as [|iv ivs IH]; intros results rs out H.
  - simpl in H. injection H as <- <-. exists []. rewrite app_nil_r.
    repeat split; constructor.
  - simpl in H. pose proof (process_interval_accepted base sess iv) as A.
    destruct (process_interval base sess iv) as [| |r] eqn:E.
    + discriminate.
    + destruct (process_intervals base sess ivs results) as [res o] eqn:R.
      injection H as -> <-.
      destruct (IH _ _ _ R) as (rows & -> & F & ->).
      exists rows. simpl. rewrite A. simpl. auto.
    + destruct (IH _ _ _ H) as (rows & -> & F & ->).
      exists (r :: rows). simpl. rewrite A. simpl.
      rewrite <- app_assoc. repeat split; auto.
Qed.

Lemma count_bad_app o1 o2 : count_bad (o1 ++ o2) = count_bad o1 + count_bad o2.
Proof. unfold count_bad. now rewrite filter_app, length_app. Qed.

Lemma count_bad_map (ivs : list interval) :
  count_bad (map BadInterval ivs) = length ivs.
Proof.
  unfold count_bad. induction ivs as [|iv ivs IH]; simpl; auto.
Qed.

Lemma count_bad_output {B : Builtins} (lines : list pystr) :
  forall st, count_bad (output st lines) = 0.
Proof.
  induction lines as [|raw lines IH]; intros st.
  - reflexivity.
  - rewrite output_cons, count_bad_app, IH.
    unfold parse_line. destruct (classify raw) as [|line|t m l]; try reflexivity.
    unfold on_event.
    destruct (m =? 5)%Z; [destruct (current_start st); reflexivity|].
    destruct (m =? 6)%Z; [destruct (current_start st)|]; reflexivity.
Qed.

Lemma count_bad_parse_log_file {B : Builtins} (log : log_source) :
  count_bad (snd (parse_log_file log)) = 0.
Proof.
  destruct log as [lines r].
  rewrite parse_log_file_messages, count_bad_app, count_bad_output.
  now destruct r.
Qed.

Lemma filter_split_length {A} (f : A -> bool) (l : list A) :
  length (filter f l) + length (filter (fun x => negb (f x)) l) = length l.
Proof.
  induction l as [|x l IH]; simpl; auto.
  destruct (f x); simpl; lia.
Qed.

(** X10. When [process_file] returns rows, they follow the parsed
    intervals: in parse order there is exactly one row for each interval
    that passes the validity test, the row built from that interval; the
    messages printed after those of the parser are one bad-interval
    message for each other interval, in order. So the number of rows plus
    the number of bad-interval messages is the number of intervals. *)
Theorem rows_follow_intervals {B : Builtins} (base : pystr) (sess : session)
    (log : log_source) (rows : list record) (out : list message) :
  process_file base (Some sess) log = (Some rows, out) ->
  Forall2 (fun iv r => process_interval base sess iv = Appends r)
          (filter (accepted sess) (fst (parse_log_file log))) rows /\
  out = snd (parse_log_file log) ++
        map BadInterval
            (filter (fun iv => negb (accepted sess iv))
                    (fst (parse_log_file log))) /\
  length rows + count_bad out = length (fst (parse_log_file log)).
Proof.
  unfold process_file.
  destruct (negb (rectangular (signals sess))); [discriminate|].
  pose proof (count_bad_parse_log_file log) as Hc.
  destruct (parse_log_file log) as [ivs o]. cbn [fst snd] in *.
  destruct ivs as [|iv0 ivs0]; [discriminate|].
  set (ivs := iv0 :: ivs0) in *.
  destruct (process_intervals base sess ivs []) as [res o'] eqn:R.
  intros [= -> <-].
  destruct (process_intervals_rows base sess ivs _ _ _ R) as (rs & E & F & ->).
  simpl in E. subst rs.
  repeat split; auto.
  rewrite count_bad_app, Hc, count_bad_map.
  rewrite <- (Forall2_length F).
  apply filter_split_length.
Qed.

Lemma rows_follow_intervals_witness :
  exists rows out,
    @process_file decimal_builtins (str "rec01") (Some scenario_session)
      scenario_log = (Some rows, out) /\
    length rows + count_bad out =
    length (fst (@parse_log_file decimal_builtins scenario_log)).
Proof.
  destruct (@process_file decimal_builtins (str "rec01")
              (Some scenario_session) scenario_log) as [[rows|] out] eqn:E.
  - exists rows, out. split; [reflexivity|].
    apply (@rows_follow_intervals decimal_builtins (str "rec01")
             scenario_session scenario_log rows out E).
  - exfalso. vm_compute in E. discriminate.
Defined.

Lemma keys_feature_columns (lbls : list pystr) :
  forall lls means,
  length lbls <= length lls -> length lls = length means ->
  keys (feature_columns lbls lls means) = label_columns lbls.
Proof.
  induction lbls as [|l lbls IH]; intros lls means Hle Heq; auto.
  destruct lls as [|ll lls]; simpl in Hle; [lia|].
  destruct means as [|m means]; simpl in Heq; [lia|].
  unfold feature_columns, label_columns, keys in *. simpl.
  f_equal. f_equal. apply IH; lia.
Qed.

(** X11. With pairwise distinct labels, at most as many as channels, the
    row of an accepted interval has the five metadata columns followed,
    label by label in the order of the labels, by the label's line-length
    column and its mean column: 5 + 2 * labels columns. Channels beyond
    the labels leave no column. *)
Theorem row_columns (base : pystr) (sess : session) (iv : interval)
    (s e : nat) :
  map_interval iv (sampling_rate sess) (shape1 (signals sess))
    = Some (Accepted s e) ->
  NoDup (labels sess) ->
  length (labels sess) <= length (signals sess) ->
  exists r,
    process_interval base sess iv = Appends r /\
    keys r = meta_cols ++ label_columns (labels sess) /\
    length r = 5 + 2 * length (labels sess).
Proof.
  intros Hm Hnd Hlen.
  unfold process_interval. rewrite Hm. unfold build_record, normalize_data.
  rewrite add_features_fresh; auto.
  - eexists. split; [reflexivity|].
    assert (K : keys (metadata base iv ++
                      feature_columns (labels sess)
                        (skipn 0 (map calculate_line_length
                                   (map normalize_channel
                                      (map (slice s e) (signals sess)))))
                        (skipn 0 (map calculate_mean
                                   (map (slice s e) (signals sess))))) =
                meta_cols ++ label_columns (labels sess)).
    { rewrite keys_app, keys_feature_columns.
      - reflexivity.
      - cbn [skipn]. rewrite !length_map. exact Hlen.
      - cbn [skipn]. now rewrite !length_map. }
    split; [exact K|].
    apply (f_equal (@length pystr)) in K.
    unfold keys in K at 1. rewrite length_map in K. rewrite K.
    rewrite length_app. unfold label_columns.
    clear. induction (labels sess) as [|l ls IH]; simpl in *; lia.
  - intros l _. apply metadata_keys_not_features.
  - rewrite !length_map, Nat.add_0_r. exact Hlen.
  - now rewrite !length_map.
Qed.

Lemma underlabelled_nodup : NoDup (labels underlabelled_session).
Proof. repeat constructor; simpl; intuition discriminate. Defined.

Lemma row_columns_witness :
  exists r,
    process_interval (str "rec") underlabelled_session seconds_2_to_5
      = Appends r /\
    keys r = meta_cols ++ [str "A" ++ LINE_LENGTH; str "A" ++ MEAN] /\
    length r = 7.
Proof.
  apply (row_columns (str "rec") underlabelled_session seconds_2_to_5 2 5
           eq_refl underlabelled_nodup).
  simpl; lia.
Defined.

(* ================================================================== *)
(** * Repeated labels *)

Lemma dict_get_set_same k v d : dict_get k (dict_set k v d) = Some v.
Proof.
  induction d as [|[k' v'] d IH]; simpl.
  - destruct (pystr_eq_dec k k); congruence.
  - destruct (pystr_eq_dec k k') as [E|N]; simpl.
    + destruct (pystr_eq_dec k k); congruence.
    + destruct (pystr_eq_dec k k'); [contradiction|exact IH].
Qed.

Lemma dict_get_set_other k k' v d :
  k <> k' -> dict_get k (dict_set k' v d) = dict_get k d.
Proof.
  intros N. induction d as [|[k0 v0] d IH]; simpl.
  - destruct (pystr_eq_dec k k'); [contradiction|reflexivity].
  - destruct (pystr_eq_dec k' k0) as [->|N0]; simpl.
    + destruct (pystr_eq_dec k k0); [contradiction|reflexivity].
    + destruct (pystr_eq_dec k k0); auto.
Qed.

Lemma add_features_absent (lbls : list pystr) :
  forall i lls means res r k,
  add_features lbls i lls means res = Some r ->
  (forall l, In l lbls -> k <> l ++ LINE_LENGTH /\ k <> l ++ MEAN) ->
  dict_get k r = dict_get k res.
Proof.
  induction lbls as [|l lbls IH]; intros i lls means res r k H Hk.
  - simpl in H. now injection H as <-.
  - simpl in H.
    destruct (nth_error lls i) as [ll|]; [|discriminate].
    destruct (nth_error means i) as [m|]; [|discriminate].
    rewrite (IH _ _ _ _ _ k H) by (intros l' Hl'; apply Hk; simpl; auto).
    destruct (Hk l (or_introl eq_refl)) as [N1 N2].
    now rewrite !dict_get_set_other.
Qed.

Lemma add_features_last (lbls : list pystr) :
  forall i lls means res r j l ll m,
  add_features lbls i lls means res = Some r ->
  nth_error lbls j = Some l ->
  (forall j', j < j' -> nth_error lbls j' <> Some l) ->
  nth_error lls (i + j) = Some ll ->
  nth_error means (i + j) = Some m ->
  dict_get (l ++ LINE_LENGTH) r = Some (VFloat ll) /\
  dict_get (l ++ MEAN) r = Some (VFloat m).
Proof.
  induction lbls as [|l0 lbls IH]; intros i lls means res r j l ll m H Hj Hlast Hll Hm.
  - destruct j; discriminate.
  - simpl in H.
    destruct (nth_error lls i) as [ll0|] eqn:E1; [|discriminate].
    destruct (nth_error means i) as [m0|] eqn:E2; [|discriminate].
    destruct j as [|j].
    + simpl in Hj. injection Hj as ->.
      rewrite Nat.add_0_r in Hll, Hm.
      assert (ll0 = ll) by congruence. assert (m0 = m) by congruence. subst.
      assert (Hnot : forall l', In l' lbls -> l' <> l).
      { intros l' Hin ->. apply In_nth_error in Hin as [n Hn].
        apply (Hlast (S n)); [lia|exact Hn]. }
      split.
      * rewrite (add_features_absent lbls _ _ _ _ _ _ H).
        -- rewrite dict_get_set_other by apply line_length_key_not_mean.
           apply dict_get_set_same.
        -- intros l' Hin. split.
           ++ intros E. apply line_length_key_inj in E.
              apply (Hnot l' Hin). congruence.
           ++ apply line_length_key_not_mean.
      * rewrite (add_features_absent lbls _ _ _ _ _ _ H).
        -- apply dict_get_set_same.
        -- intros l' Hin. split.
           ++ intros E. symmetry in E.
              now apply line_length_key_not_mean in E.
           ++ intros E. apply mean_key_inj in E.
              apply (Hnot l' Hin). congruence.
    + simpl in Hj.
      apply (IH (S i) lls means _ r j l ll m H Hj).
      * intros j' Hlt. apply (Hlast (S j')). lia.
      * now rewrite <- Nat.add_succ_comm in Hll.
      * now rewrite <- Nat.add_succ_comm in Hm.
Qed.

(** X12. When a label occurs more than once, its two columns occur once in
    the row and hold the values of the last channel that carries the
    label: the line length of that channel's normalized slice and the
    mean of its raw slice. The values of the earlier channels with the
    same label are overwritten. *)
Theorem repeated_label_last_wins (base : pystr) (sess : session)
    (iv : interval) (s e j : nat) (l : pystr) (ch : list float) (r : record) :
  map_interval iv (sampling_rate sess) (shape1 (signals sess))
    = Some (Accepted s e) ->
  process_interval base sess iv = Appends r ->
  nth_error (labels sess) j = Some l ->
  (forall j', j < j' -> nth_error (labels sess) j' <> Some l) ->
  nth_error (signals sess) j = Some ch ->
  dict_get (l ++ LINE_LENGTH) r =
    Some (VFloat (calculate_line_length (normalize_channel (slice s e ch)))) /\
  dict_get (l ++ MEAN) r = Some (VFloat (calculate_mean (slice s e ch))).
Proof.
  intros Hm Hr Hl Hlast Hch.
  unfold process_interval in Hr. rewrite Hm in Hr.
  destruct (build_record base sess iv s e) as [r'|] eqn:E; [|discriminate].
  injection Hr as ->. unfold build_record, normalize_data in E.
  apply (add_features_last _ _ _ _ _ _ j l _ _ E Hl Hlast).
  - cbn [Nat.add]. now rewrite !nth_error_map, Hch.
  - cbn [Nat.add]. now rewrite !nth_error_map, Hch.
Qed.

Lemma twin_last_label :
  forall j', 1 < j' -> nth_error (labels twin_session) j' <> Some (str "A").
Proof.
  intros [|[|[|j']]] H; try lia; simpl; discriminate.
Defined.

Lemma repeated_label_last_wins_witness :
  exists r,
    process_interval (str "rec") twin_session seconds_2_to_5 = Appends r /\
    length r = 7 /\
    dict_get (str "A" ++ MEAN) r =
      Some (VFloat (calculate_mean (slice 2 5 (repeat (float_of_Z 7) 10)))).
Proof.
  destruct (process_interval (str "rec") twin_session seconds_2_to_5)
    as [| |r] eqn:E; try (vm_compute in E; discriminate).
  exists r. split; [reflexivity|split].
  - vm_compute in E. injection E as <-. reflexivity.
  - apply (repeated_label_last_wins (str "rec") twin_session seconds_2_to_5
             2 5 1 (str "A") (repeat (float_of_Z 7) 10) r
             eq_refl E eq_refl twin_last_label eq_refl).
Defined.

(* ================================================================== *)
(** * Logs that give no interval *)

(** X13. A log without any marker-6 line gives no interval, whatever else
    it holds: for loadable data [process_file] returns [None] and prints,
    after the parser's messages, that no intervals were found. *)
Theorem no_end_marker_no_rows {B : Builtins} (base : pystr) (sess : session)
    (log : log_source) :
  rectangular (signals sess) = true ->
  count_marker 6 (yielded log) = 0 ->
  fst (parse_log_file log) = [] /\
  process_file base (Some sess) log =
    (None, snd (parse_log_file log) ++ [NoIntervals]).
Proof.
  intros Hrect H6.
  assert (E : fst (parse_log_file log) = []).
  { destruct log as [lines r]. cbn [yielded] in H6.
    rewrite parse_log_file_intervals.
    destruct (start_accounting_from lines initial) as [_ Hle].
    rewrite H6 in Hle. cbn in Hle.
    destruct (intervals (final initial lines)); [reflexivity|simpl in Hle; lia]. }
  split; [exact E|].
  unfold process_file. rewrite Hrect. cbn [negb].
  destruct (parse_log_file log) as [ivs out]. cbn [fst snd] in *.
  now subst ivs.
Qed.

Lemma no_end_marker_no_rows_witness :
  rectangular (signals small_session) = true /\
  @count_marker decimal_builtins 6 [str "1.0 k 5 a"; str "3.0 k 5 b"] = 0 /\
  @process_file decimal_builtins (str "rec") (Some small_session)
    {| yielded := [str "1.0 k 5 a"; str "3.0 k 5 b"]; raised := false |} =
  (None, [UnclosedInterval (Some (str "a")); NoIntervals]).
Proof.
  split; [reflexivity|split; [reflexivity|]].
  apply (@no_end_marker_no_rows decimal_builtins (str "rec") small_session
           {| yielded := [str "1.0 k 5 a"; str "3.0 k 5 b"]; raised := false |}
           eq_refl eq_refl).
Defined.

(* ================================================================== *)
(** * Sign of the line length *)

Lemma binary_round_aux_sign_clear (mx ex : Z) (lx : location) :
  sign_clear (binary_round_aux fprec femax false mx ex lx) = true.
Proof.
  unfold binary_round_aux.
  destruct (shr_fexp fprec femax mx ex lx) as [mrs' e'].
  destruct (shr_fexp fprec femax _ e' loc_Exact) as [mrs'' e''].
  destruct (shr_m mrs''); try reflexivity.
  destruct (Z.leb _ _); reflexivity.
Qed.

Lemma fadd_sign_clear (x y : float) :
  sign_clear x = true -> sign_clear y = true -> sign_clear (fadd x y) = true.
Proof.
  destruct x as [[|]|[|]| |[|] mx ex]; try discriminate;
    destruct y as [[|]|[|]| |[|] my ey]; try discriminate;
    intros _ _; try reflexivity.
  unfold fadd, SFadd, binary_normalize. cbn [cond_Zopp Z.add].
  unfold binary_round.
  destruct (shl_align _ _ _) as [mz ez].
  apply binary_round_aux_sign_clear.
Qed.

Lemma fabs_sign_clear (x : float) : sign_clear (fabs x) = true.
Proof. destruct x; reflexivity. Qed.

(** In whatever order numpy adds them, values with a clear sign bit add
    up to a value with a clear sign bit. *)
Lemma np_sum_sign_clear (l : list float) :
  Forall (fun x => sign_clear x = true) l ->
  sign_clear (np_sum l) = true.
Proof.
  apply (np_sum_closed (fun x => sign_clear x = true)).
  - reflexivity.
  - exact fadd_sign_clear.
Qed.

(** X14. In binary64 the line length of any signal has its sign bit
    clear: it is +0, a positive number, positive infinity or NaN, never a
    negative number and never -0. *)
Theorem line_length_sign_clear (signal : list float) :
  sign_clear (calculate_line_length signal) = true.
Proof.
  unfold calculate_line_length. apply np_sum_sign_clear.
  apply Forall_map, Forall_forall. intros x _. apply fabs_sign_clear.
Qed.

(* ================================================================== *)
(** * Line length under a change of scale *)

Section ExactScaling.
Open Scope R_scope.

Lemma fold_plus_scale (seg : list R) (k acc : R) :
  fold_left Rplus (map (fun x => k * x) seg) (k * acc) =
  k * fold_left Rplus seg acc.
Proof.
  revert acc; induction seg as [|x seg IH]; intros acc; simpl; auto.
  rewrite <- Rmult_plus_distr_l. apply IH.
Qed.

Lemma np_sum_scale (seg : list R) (k : R) :
  np_sum (map (fun x => k * x) seg) = k * np_sum seg.
Proof.
  rewrite !np_sum_real.
  rewrite <- fold_plus_scale. now rewrite Rmult_0_r.
Qed.

Lemma np_mean_scale (seg : list R) (k : R) :
  np_mean (map (fun x => k * x) seg) = k * np_mean seg.
Proof.
  unfold np_mean. rewrite np_sum_scale, length_map.
  cbn [ndiv real_numeric]. unfold Rdiv. ring.
Qed.

Lemma np_std_scale (seg : list R) (k : R) :
  np_std (map (fun x => k * x) seg) = Rabs k * np_std seg.
Proof.
  unfold np_std; cbv zeta. rewrite np_mean_scale.
  set (m := np_mean seg).
  assert (E : map (fun x => nmul (nsub x (k * m)) (nsub x (k * m)))
                  (map (fun x => k * x) seg) =
              map (fun x => (k * k) * x)
                  (map (fun x => nmul (nsub x m) (nsub x m)) seg)).
  { rewrite !map_map. apply map_ext. intros x.
    cbn [nmul nsub real_numeric]. ring. }
  rewrite E, np_mean_scale. cbn [nsqrt real_numeric].
  rewrite sqrt_mult_alt by apply Rle_0_sqr.
  f_equal. apply sqrt_Rsqr_abs.
Qed.

Lemma np_diff_scale (seg : list R) (k : R) :
  np_diff (map (fun x => k * x) seg) = map (fun x => k * x) (np_diff seg).
Proof.
  induction seg as [|x [|y seg] IH]; auto.
  change (np_diff (map (fun x => k * x) (x :: y :: seg)))
    with (nsub (k * y) (k * x) :: np_diff (map (fun x => k * x) (y :: seg))).
  rewrite IH. cbn [np_diff map nsub real_numeric]. f_equal. ring.
Qed.

Lemma normalize_channel_scale (seg : list R) (k : R) :
  k <> 0 -> np_std seg <> 0 ->
  normalize_channel (map (fun x => k * x) seg) =
  map (fun x => (k / Rabs k) * x) (normalize_channel seg).
Proof.
  intros Hk Hs. unfold normalize_channel; cbv zeta.
  rewrite np_std_scale, np_mean_scale, !map_map.
  apply map_ext. intros x. cbn [ndiv nsub real_numeric].
  field. split; [exact Hs|]. now apply Rabs_no_R0.
Qed.

End ExactScaling.

(** X15. In exact arithmetic, that is with the feature functions run on
    real numbers: for a segment with nonzero standard deviation, the line
    length of the z-normalized segment does not change when every sample
    is multiplied by the same nonzero factor, negative factors included. *)
Theorem line_length_scale_invariant_exact (seg : list R) (k : R) :
  k <> 0%R ->
  np_std seg <> 0%R ->
  calculate_line_length (normalize_channel (map (fun x => (k * x)%R) seg)) =
  calculate_line_length (normalize_channel seg).
Proof.
  intros Hk Hs. rewrite normalize_channel_scale by assumption.
  unfold calculate_line_length. rewrite np_diff_scale, map_map.
  f_equal. apply map_ext. intros x. cbn [nabs real_numeric].
  rewrite Rabs_mult. unfold Rdiv. rewrite Rabs_mult, Rabs_inv, Rabs_Rabsolu.
  rewrite Rinv_r by now apply Rabs_no_R0.
  apply Rmult_1_l.
Qed.

Lemma line_length_scale_invariant_exact_witness :
  (-3 <> 0)%R /\
  np_std [0%R; 1%R] <> 0%R /\
  calculate_line_length (normalize_channel (map (fun x => (-3 * x)%R) [0%R; 1%R])) =
  calculate_line_length (normalize_channel [0%R; 1%R]).
Proof.
  assert (Hk : (-3 <> 0)%R) by lra.
  assert (Hs : np_std [0%R; 1%R] <> 0%R).
  { unfold np_std, np_mean. rewrite !np_sum_real. simpl.
    apply Rgt_not_eq, sqrt_lt_R0. lra. }
  split; [exact Hk|split; [exact Hs|]].
  exact (line_length_scale_invariant_exact [0%R; 1%R] (-3) Hk Hs).
Defined.

(* ================================================================== *)
(** * The batch driver *)

Section BatchFacts.
Context {B : Builtins}.

Lemma collect_from (files : list data_file) :
  forall acc,
  fst (collect files acc) = acc ++ concat (map session_rows files).
Proof.
  induction files as [|f files IH]; intros acc.
  - simpl. now rewrite app_nil_r.
  - cbn [collect map concat]. unfold session_rows at 1.
    destruct (file_log f) as [log|].
    + destruct (process_file (file_base f) (file_data f) log)
        as [[[|r rs]|] printed]; cbn [fst].
      * specialize (IH acc). destruct (collect files acc). exact IH.
      * specialize (IH (acc ++ r :: rs)).
        destruct (collect files (acc ++ r :: rs)). cbn [fst] in *.
        rewrite IH. now rewrite <- app_assoc.
      * specialize (IH acc). destruct (collect files acc). exact IH.
    + specialize (IH acc). destruct (collect files acc). exact IH.
Qed.

(** X16. The rows gathered by [main] are the rows of the data files, file
    after file in the order of the glob; a file whose log is missing or
    for which [process_file] returns [None] or no row contributes nothing
    and leaves the rows of the other files as they are. No table is
    written exactly when no file contributes a row. *)
Theorem batch_rows (files : list data_file) :
  fst (collect files []) = concat (map session_rows files) /\
  (forall fs1 f fs2,
     session_rows f = [] ->
     fst (collect (fs1 ++ f :: fs2) []) = fst (collect (fs1 ++ fs2) [])) /\
  (main_table files = None <->
   forall f, In f files -> session_rows f = []).
Proof.
  split; [apply (collect_from files [])|split].
  - intros fs1 f fs2 Hf.
    rewrite !collect_from, !map_app, !concat_app. cbn [map concat].
    now rewrite Hf.
  - unfold main_table. rewrite collect_from. cbn [app].
    split.
    + intros H f Hin.
      destruct (concat (map session_rows files)) as [|r rs] eqn:E;
        [|discriminate].
      destruct (session_rows f) as [|r rs] eqn:Ef; [reflexivity|].
      exfalso.
      assert (Hr : In r (concat (map session_rows files))).
      { apply in_concat. exists (session_rows f). split.
        - now apply in_map.
        - rewrite Ef. now left. }
      rewrite E in Hr. exact Hr.
    + intros H.
      assert (E : concat (map session_rows files) = []).
      { induction files as [|f fs IH]; [reflexivity|].
        cbn [map concat]. rewrite (H f) by (now left).
        apply IH. intros f' Hf'. apply H. now right. }
      now rewrite E.
Qed.

End BatchFacts.

(* ================================================================== *)
(** * The columns of the table *)

Lemma prefixb_app (n x y : pystr) :
  prefixb n x = true -> prefixb n (x ++ y) = true.
Proof.
  revert x; induction n as [|a n IH]; intros x; [reflexivity|].
  destruct x as [|b x]; simpl; [discriminate|].
  intros H. apply andb_prop in H as [H1 H2]. rewrite H1. now apply IH.
Qed.

Lemma contains_app_l (n x y : pystr) :
  contains n x = true -> contains n (x ++ y) = true.
Proof.
  induction x as [|c x IH]; simpl.
  - rewrite orb_false_r. destruct n; [|discriminate].
    intros _. destruct y; reflexivity.
  - intros H. apply orb_prop in H as [H|H].
    + change (c :: x ++ y) with ((c :: x) ++ y).
      now rewrite prefixb_app.
    + rewrite IH by assumption. apply orb_true_r.
Qed.

Lemma prefixb_self (n : pystr) : prefixb n n = true.
Proof.
  induction n as [|a n IH]; simpl; auto. now rewrite N.eqb_refl.
Qed.

Lemma contains_prefix (n x : pystr) :
  prefixb n x = true -> contains n x = true.
Proof. intros H. destruct x; simpl; now rewrite H. Qed.

Lemma contains_suffix (n l : pystr) : contains n (l ++ n) = true.
Proof.
  induction l as [|c l IH].
  - apply contains_prefix, prefixb_self.
  - cbn [app contains]. rewrite IH. apply orb_true_r.
Qed.

(** When [n] is found at the start of [x ++ y] it lies within [x], or [x]
    is shorter than [n] and the rest of [n] starts [y]. *)
Lemma prefixb_app_cases (n : pystr) :
  forall x y,
  prefixb n (x ++ y) = true ->
  prefixb n x = true \/
  (length x < length n /\ prefixb (skipn (length x) n) y = true).
Proof.
  induction n as [|a n IH]; intros x y H; [left; reflexivity|].
  destruct x as [|b x].
  - right. simpl. split; [lia|exact H].
  - cbn [app prefixb] in H. apply andb_prop in H as [H1 H2].
    destruct (IH x y H2) as [Hl|[Hlt Hr]].
    + left. simpl. now rewrite H1.
    + right. simpl. split; [lia|exact Hr].
Qed.

Lemma contains_app_no_overlap (n y : pystr) :
  n <> [] -> no_overlap n y = true -> contains n y = false ->
  forall l, contains n (l ++ y) = contains n l.
Proof.
  intros Hn Hov Hy l. induction l as [|c l IH].
  - cbn [app]. rewrite Hy. destruct n; [congruence|reflexivity].
  - cbn [app contains]. rewrite IH. f_equal.
    destruct (prefixb n (c :: l)) eqn:E.
    + change (c :: l ++ y) with ((c :: l) ++ y). now apply prefixb_app.
    + destruct (prefixb n (c :: l ++ y)) eqn:E'; [|reflexivity].
      change (c :: l ++ y) with ((c :: l) ++ y) in E'.
      apply prefixb_app_cases in E' as [E'|[Hlt Hp]]; [congruence|].
      unfold no_overlap in Hov. rewrite forallb_forall in Hov.
      specialize (Hov (length (c :: l))).
      rewrite Hp in Hov. simpl negb in Hov.
      exfalso. assert (false = true); [|discriminate].
      apply Hov. apply in_seq. simpl in *. lia.
Qed.

Lemma mean_in_line_length_column (l : pystr) :
  contains MEAN (l ++ LINE_LENGTH) = contains MEAN l.
Proof.
  apply contains_app_no_overlap; [discriminate|reflexivity|reflexivity].
Qed.

Lemma line_length_in_mean_column (l : pystr) :
  contains LINE_LENGTH (l ++ MEAN) = contains LINE_LENGTH l.
Proof.
  apply contains_app_no_overlap; [discriminate|reflexivity|reflexivity].
Qed.

Lemma add_columns_new (ks : list pystr) :
  forall acc, NoDup (acc ++ ks) -> fold_left add_column ks acc = acc ++ ks.
Proof.
  induction ks as [|k ks IH]; intros acc H; simpl.
  - now rewrite app_nil_r.
  - unfold add_column at 2.
    destruct (in_dec pystr_eq_dec k acc) as [Hin|Hout].
    + exfalso. apply NoDup_remove_2 in H. apply H, in_or_app. now left.
    + rewrite IH; rewrite <- app_assoc; auto.
Qed.

Lemma add_columns_known (ks cols : list pystr) :
  incl ks cols -> fold_left add_column ks cols = cols.
Proof.
  induction ks as [|k ks IH]; intros H; simpl; auto.
  unfold add_column at 2.
  destruct (in_dec pystr_eq_dec k cols) as [Hin|Hout].
  - apply IH. intros x Hx. apply H. now right.
  - exfalso. apply Hout, H. now left.
Qed.

Lemma frame_columns_same_keys (ks : list pystr) (rows : list record) :
  rows <> [] -> NoDup ks ->
  Forall (fun r => keys r = ks) rows ->
  frame_columns rows = ks.
Proof.
  intros Hne Hnd Hall. unfold frame_columns.
  destruct rows as [|r rows]; [congruence|].
  apply Forall_cons_iff in Hall as [Hr Hrest].
  cbn [fold_left]. rewrite Hr, (add_columns_new ks []) by exact Hnd.
  cbn [app]. clear Hne Hr.
  induction rows as [|r' rows IH]; [reflexivity|].
  apply Forall_cons_iff in Hrest as [Hr' Hrest].
  cbn [fold_left]. rewrite Hr', add_columns_known by apply incl_refl.
  now apply IH.
Qed.

Lemma label_columns_nodup (lbls : list pystr) :
  NoDup lbls -> NoDup (meta_cols ++ label_columns lbls).
Proof.
  intros Hnd.
  assert (Hin : forall l k, In k (label_columns l) ->
                  exists x, In x l /\ (k = x ++ LINE_LENGTH \/ k = x ++ MEAN)).
  { intros l k H. unfold label_columns in H. apply in_flat_map in H.
    destruct H as (x & Hx & [<-|[<-|[]]]); eauto. }
  assert (Hl : NoDup (label_columns lbls)).
  { induction Hnd as [|l lbls Hnot Hnd IH]; [constructor|].
    cbn [label_columns flat_map app].
    constructor; [|constructor; [|exact IH]].
    - intros [H|H]; [symmetry in H; now apply line_length_key_not_mean in H|].
      apply Hin in H as (x & Hx & [E|E]).
      + apply line_length_key_inj in E. congruence.
      + now apply line_length_key_not_mean in E.
    - intros H. apply Hin in H as (x & Hx & [E|E]).
      + symmetry in E. now apply line_length_key_not_mean in E.
      + apply mean_key_inj in E. congruence. }
  apply NoDup_app; [repeat constructor; simpl; intuition discriminate|exact Hl|].
  intros k Hk Hk'. apply Hin in Hk' as (x & _ & E).
  pose proof (metadata_keys_not_features [] {| label := None;
                start := S754_nan; end_ := S754_nan |} x) as [F1 F2].
  destruct E as [->| ->]; [apply F1, Hk|apply F2, Hk].
Qed.

Lemma filter_label_columns (lbls : list pystr) :
  forallb plain_label lbls = true ->
  filter (contains LINE_LENGTH) (label_columns lbls) = line_length_columns lbls /\
  filter (contains MEAN) (label_columns lbls) = mean_columns lbls.
Proof.
  induction lbls as [|l lbls IH]; intros H; [split; reflexivity|].
  cbn [forallb] in H. apply andb_prop in H as [Hl Hrest].
  unfold plain_label in Hl. apply andb_prop in Hl as [H1 H2].
  apply negb_true_iff in H1, H2.
  destruct (IH Hrest) as [IH1 IH2].
  cbn [label_columns flat_map app filter line_length_columns mean_columns map] in *.
  rewrite !contains_suffix, mean_in_line_length_column,
    line_length_in_mean_column, H1, H2.
  split; f_equal; assumption.
Qed.

(** X17. For rows that all carry the columns of the same pairwise
    distinct labels, none of which contains [_Line_Length] or [_Mean],
    the table has the five metadata columns, then the line-length column
    of every label, then the mean column of every label, each group in
    the order of the labels. *)
Theorem table_columns_grouped (lbls : list pystr) (rows : list record) :
  rows <> [] ->
  NoDup lbls ->
  forallb plain_label lbls = true ->
  Forall (fun r => keys r = meta_cols ++ label_columns lbls) rows ->
  ordered_columns rows =
  meta_cols ++ line_length_columns lbls ++ mean_columns lbls.
Proof.
  intros Hne Hnd Hplain Hrows.
  unfold ordered_columns.
  rewrite (frame_columns_same_keys (meta_cols ++ label_columns lbls) rows);
    auto using label_columns_nodup.
  f_equal. unfold channel_metrics. cbn [flat_map].
  change (95%N :: str "Line_Length") with LINE_LENGTH.
  change (95%N :: str "Mean") with MEAN.
  rewrite !filter_app, app_nil_r.
  destruct (filter_label_columns lbls Hplain) as [-> ->].
  reflexivity.
Qed.

Lemma small_rows_keys :
  Forall (fun r => keys r = meta_cols ++ label_columns [str "A"; str "B"])
         (rows_of (str "rec") small_session [seconds_2_to_5; first_second]).
Proof. vm_compute. repeat constructor. Defined.

Lemma table_columns_grouped_witness :
  ordered_columns (rows_of (str "rec") small_session
                     [seconds_2_to_5; first_second]) =
  meta_cols ++ [str "A" ++ LINE_LENGTH; str "B" ++ LINE_LENGTH]
            ++ [str "A" ++ MEAN; str "B" ++ MEAN].
Proof.
  apply (table_columns_grouped [str "A"; str "B"]
           (rows_of (str "rec") small_session [seconds_2_to_5; first_second])).
  - vm_compute; discriminate.
  - exact small_session_labels_nodup.
  - reflexivity.
  - exact small_rows_keys.
Defined.

Lemma add_columns_incl (ks : list pystr) :
  forall acc k, In k acc \/ In k ks -> In k (fold_left add_column ks acc).
Proof.
  induction ks as [|k0 ks IH]; intros acc k H; simpl.
  - destruct H as [H|[]]; exact H.
  - apply IH. unfold add_column.
    destruct (in_dec pystr_eq_dec k0 acc) as [Hin|Hout].
    + destruct H as [H|[<-|H]]; auto.
    + rewrite in_app_iff. simpl. destruct H as [H|[<-|H]]; auto.
Qed.

Lemma frame_columns_complete (rows : list record) (r : record) (k : pystr) :
  In r rows -> In k (keys r) -> In k (frame_columns rows).
Proof.
  unfold frame_columns. generalize (@nil pystr) as acc.
  induction rows as [|r0 rows IH]; intros acc Hr Hk; [destruct Hr|].
  cbn [fold_left]. destruct Hr as [->|Hr].
  - assert (H : In k (fold_left add_column (keys r) acc))
      by (apply add_columns_incl; auto).
    revert H. generalize (fold_left add_column (keys r) acc) as acc'.
    clear. induction rows as [|r1 rows IH]; intros acc' H; [exact H|].
    cbn [fold_left]. apply IH, add_columns_incl. auto.
  - now apply IH.
Qed.

Lemma channel_metrics_split (cols : list pystr) :
  channel_metrics cols =
  filter (contains LINE_LENGTH) cols ++ filter (contains MEAN) cols.
Proof.
  unfold channel_metrics. cbn [flat_map]. now rewrite app_nil_r.
Qed.

(** X18. The columns are chosen by a substring test. A label that itself
    contains [_Mean] makes its line-length column match both tests, so
    that column is listed at least twice in the table's columns. *)
Theorem mean_in_label_repeats_column (l : pystr) (rows : list record)
    (r : record) :
  contains MEAN l = true ->
  In r rows ->
  In (l ++ LINE_LENGTH) (keys r) ->
  2 <= count_occ pystr_eq_dec (ordered_columns rows) (l ++ LINE_LENGTH).
Proof.
  intros Hl Hr Hk.
  pose proof (frame_columns_complete rows r _ Hr Hk) as Hin.
  unfold ordered_columns. rewrite channel_metrics_split, !count_occ_app.
  assert (H1 : 1 <= count_occ pystr_eq_dec
                  (filter (contains LINE_LENGTH) (frame_columns rows))
                  (l ++ LINE_LENGTH)).
  { apply count_occ_In, filter_In. split; [exact Hin|apply contains_suffix]. }
  assert (H2 : 1 <= count_occ pystr_eq_dec
                  (filter (contains MEAN) (frame_columns rows))
                  (l ++ LINE_LENGTH)).
  { apply count_occ_In, filter_In. split; [exact Hin|].
    now apply contains_app_l. }
  lia.
Qed.

Lemma mean_in_label_repeats_column_witness :
  contains MEAN (str "A_Mean") = true /\
  ordered_columns (rows_of (str "rec") mean_labelled_session [seconds_2_to_5]) =
  meta_cols ++ [str "A_Mean_Line_Length";
                str "A_Mean_Line_Length"; str "A_Mean_Mean"] /\
  2 <= count_occ pystr_eq_dec
         (ordered_columns (rows_of (str "rec") mean_labelled_session
                             [seconds_2_to_5]))
         (str "A_Mean" ++ LINE_LENGTH).
Proof.
  split; [reflexivity|split; [vm_compute; reflexivity|]].
  destruct (rows_of (str "rec") mean_labelled_session [seconds_2_to_5])
    as [|r rest] eqn:E; [vm_compute in E; discriminate|].
  apply (mean_in_label_repeats_column (str "A_Mean") (r :: rest) r
           eq_refl (or_introl eq_refl)).
  vm_compute in E. injection E as <- _. vm_compute. auto 10.
Defined.

(** X19. No column of a row is lost when the table's columns are chosen:
    every column of every row built by [process_file] is among the
    columns of the table. *)
Theorem table_keeps_row_columns (base : pystr) (sess : session)
    (iv : interval) (r : record) (rows : list record) :
  process_interval base sess iv = Appends r ->
  In r rows ->
  forall k, In k (keys r) -> In k (ordered_columns rows).
Proof.
  intros Hp Hr k Hk.
  destruct (row_shape base sess iv r Hp) as (cols & E & Hcols).
  unfold ordered_columns. apply in_or_app.
  assert (Hk' := Hk). rewrite E, keys_app in Hk'.
  apply in_app_or in Hk' as [Hm|Hc]; [left; exact Hm|right].
  pose proof (frame_columns_complete rows r k Hr Hk) as Hin.
  rewrite channel_metrics_split. apply in_or_app.
  destruct (Hcols k Hc) as (l & _ & [->| ->]).
  - left. apply filter_In. split; [exact Hin|apply contains_suffix].
  - right. apply filter_In. split; [exact Hin|apply contains_suffix].
Qed.

Lemma table_keeps_row_columns_witness :
  exists r,
    process_interval (str "rec") twin_session seconds_2_to_5 = Appends r /\
    forall k, In k (keys r) -> In k (ordered_columns [r]).
Proof.
  destruct (process_interval (str "rec") twin_session seconds_2_to_5)
    as [| |r] eqn:E; try (vm_compute in E; discriminate).
  exists r. split; [reflexivity|].
  apply (table_keeps_row_columns (str "rec") twin_session seconds_2_to_5 r [r]
           E (or_introl eq_refl)).
Defined.

(* ================================================================== *)
(** * Sessions without a valid interval *)

Lemma process_intervals_all_rejected base sess (ivs : list interval) :
  forall results,
  Forall (fun iv => map_interval iv (sampling_rate sess)
                      (shape1 (signals sess)) = Some Rejected) ivs ->
  process_intervals base sess ivs results = (Some results, map BadInterval ivs).
Proof.
  induction ivs as [|iv ivs IH]; intros results H; [reflexivity|].
  apply Forall_cons_iff in H as [Hiv Hrest].
  cbn [process_intervals map]. unfold process_interval. rewrite Hiv.
  now rewrite (IH results Hrest).
Qed.

(** X20. When the log gives intervals but the mapper rejects every one of
    them, [process_file] returns the empty list, not [None], and prints
    one bad-interval message per interval after the parser's messages. *)
Theorem all_rejected_empty_list {B : Builtins} (base : pystr) (sess : session)
    (log : log_source) :
  rectangular (signals sess) = true ->
  fst (parse_log_file log) <> [] ->
  Forall (fun iv => map_interval iv (sampling_rate sess)
                      (shape1 (signals sess)) = Some Rejected)
         (fst (parse_log_file log)) ->
  process_file base (Some sess) log =
  (Some [], snd (parse_log_file log) ++
            map BadInterval (fst (parse_log_file log))).
Proof.
  intros Hrect Hne Hall. unfold process_file. rewrite Hrect. cbn [negb].
  destruct (parse_log_file log) as [ivs out]. cbn [fst snd] in *.
  destruct ivs as [|iv ivs]; [congruence|].
  now rewrite (process_intervals_all_rejected base sess (iv :: ivs) [] Hall).
Qed.

Lemma all_rejected_empty_list_witness :
  fst (@parse_log_file decimal_builtins rejected_log) =
    [ {| label := Some (str "a");
         start := float_of_Z 5; end_ := float_of_Z 5 |};
      {| label := None; start := float_of_Z 8; end_ := float_of_Z 11 |} ] /\
  @process_file decimal_builtins (str "rec") (Some small_session) rejected_log =
  (Some [], snd (@parse_log_file decimal_builtins rejected_log) ++
            map BadInterval (fst (@parse_log_file decimal_builtins rejected_log))).
Proof.
  assert (Hiv : fst (@parse_log_file decimal_builtins rejected_log) =
                [ {| label := Some (str "a");
                     start := float_of_Z 5; end_ := float_of_Z 5 |};
                  {| label := None;
                     start := float_of_Z 8; end_ := float_of_Z 11 |} ])
    by (vm_compute; reflexivity).
  split; [exact Hiv|].
  apply (@all_rejected_empty_list decimal_builtins (str "rec") small_session
           rejected_log eq_refl); rewrite Hiv.
  - discriminate.
  - constructor; [vm_compute; reflexivity|].
    constructor; [vm_compute; reflexivity|constructor].
Defined.

(* ================================================================== *)
(** * What the normalization achieves *)

Section ExactNormalization.
Open Scope R_scope.

Lemma fold_plus_affine (seg : list R) (m s acc : R) :
  fold_left Rplus (map (fun x => (x - m) / s) seg) (acc / s) =
  (fold_left Rplus seg acc - INR (length seg) * m) / s.
Proof.
  revert acc; induction seg as [|x seg IH]; intros acc.
  - simpl. unfold Rdiv. ring.
  - cbn [map fold_left].
    replace (acc / s + (x - m) / s) with ((acc + x - m) / s)
      by (unfold Rdiv; ring).
    rewrite IH. change (length (x :: seg)) with (S (length seg)).
    rewrite S_INR.
    assert (E : forall a b : R,
              fold_left Rplus seg (a - b) = fold_left Rplus seg a - b).
    { clear. induction seg as [|y seg IH]; intros a b; simpl; auto.
      replace (a - b + y) with (a + y - b) by ring. apply IH. }
    rewrite E. unfold Rdiv. ring.
Qed.

Lemma normalized_mean_zero (seg : list R) :
  seg <> [] -> np_mean (normalize_channel seg) = 0.
Proof.
  intros Hne.
  assert (Hn : INR (length seg) <> 0)
    by (apply not_0_INR; destruct seg; [congruence|discriminate]).
  unfold normalize_channel; cbv zeta.
  set (m := np_mean seg). set (s := np_std seg).
  unfold np_mean at 1. rewrite np_sum_real.
  cbn [nadd nzero ndiv nsub of_nat real_numeric].
  replace 0 with (0 / s) at 1 by (unfold Rdiv; ring).
  rewrite fold_plus_affine, length_map.
  unfold m, np_mean. rewrite np_sum_real.
  cbn [nadd nzero ndiv of_nat real_numeric].
  unfold Rdiv. replace (fold_left Rplus seg 0 -
                        INR (length seg) * (fold_left Rplus seg 0 * / INR (length seg)))
    with 0 by (field; exact Hn).
  ring.
Qed.

Lemma np_std_sqr (seg : list R) :
  np_std seg <> 0 ->
  np_std seg * np_std seg =
  np_mean (map (fun x => (x - np_mean seg) * (x - np_mean seg)) seg).
Proof.
  intros Hs. unfold np_std in *; cbv zeta in *. cbn [nsqrt nmul nsub real_numeric] in *.
  apply sqrt_sqrt.
  destruct (Rle_or_lt 0 (np_mean (map (fun x => (x - np_mean seg) * (x - np_mean seg)) seg)))
    as [H|H]; [exact H|].
  exfalso. apply Hs. apply sqrt_neg_0. lra.
Qed.

End ExactNormalization.

(** X21. In exact arithmetic, that is with the feature functions run on
    real numbers: the normalized channel of a non-empty segment with
    nonzero standard deviation has mean 0 and standard deviation 1, which
    is what makes the normalization a z-normalization. *)
Theorem normalized_is_standard_exact (seg : list R) :
  seg <> [] ->
  np_std seg <> 0%R ->
  np_mean (normalize_channel seg) = 0%R /\
  np_std (normalize_channel seg) = 1%R.
Proof.
  intros Hne Hs. split; [now apply normalized_mean_zero|].
  pose proof (np_std_sqr seg Hs) as Hsq.
  unfold np_std at 1; cbv zeta. rewrite (normalized_mean_zero seg Hne).
  unfold normalize_channel; cbv zeta.
  assert (E : map (fun x => nmul (nsub x 0%R) (nsub x 0%R))
                  (map (fun x => ndiv (nsub x (np_mean seg)) (np_std seg)) seg) =
              map (fun x => (/ (np_std seg * np_std seg) * x)%R)
                  (map (fun x => ((x - np_mean seg) * (x - np_mean seg))%R) seg)).
  { rewrite !map_map. apply map_ext. intros x.
    cbn [nmul nsub ndiv real_numeric]. field. exact Hs. }
  rewrite E, np_mean_scale, <- Hsq.
  cbn [nsqrt real_numeric].
  replace (/ (np_std seg * np_std seg) * (np_std seg * np_std seg))%R
    with 1%R by (field; exact Hs).
  apply sqrt_1.
Qed.

Lemma normalized_is_standard_exact_witness :
  [0%R; 1%R] <> [] /\
  np_std [0%R; 1%R] <> 0%R /\
  np_mean (normalize_channel [0%R; 1%R]) = 0%R /\
  np_std (normalize_channel [0%R; 1%R]) = 1%R.
Proof.
  assert (Hne : [0%R; 1%R] <> []) by discriminate.
  assert (Hs : np_std [0%R; 1%R] <> 0%R).
  { unfold np_std, np_mean. rewrite !np_sum_real. simpl.
    apply Rgt_not_eq, sqrt_lt_R0. lra. }
  split; [exact Hne|split; [exact Hs|]].
  exact (normalized_is_standard_exact [0%R; 1%R] Hne Hs).
Defined.

(* ================================================================== *)
(** * Column names of a row *)

Lemma dict_set_nodup k v d : NoDup (keys d) -> NoDup (keys (dict_set k v d)).
Proof.
  induction d as [|[k' v'] d IH]; intros H; simpl.
  - repeat constructor. intros [].
  - destruct (pystr_eq_dec k k') as [->|N]; [exact H|].
    simpl in *. inversion H as [|? ? Hnot Hd]; subst.
    constructor; [|now apply IH].
    intros Hin. apply dict_set_keys in Hin as [E|Hin]; [congruence|].
    now apply Hnot.
Qed.

Lemma add_features_nodup (lbls : list pystr) :
  forall i lls means res r,
  NoDup (keys res) ->
  add_features lbls i lls means res = Some r -> NoDup (keys r).
Proof.
  induction lbls as [|l lbls IH]; intros i lls means res r Hnd H.
  - simpl in H. now injection H as <-.
  - simpl in H.
    destruct (nth_error lls i) as [ll|]; [|discriminate].
    destruct (nth_error means i) as [m|]; [|discriminate].
    eapply IH; [|exact H]. now apply dict_set_nodup, dict_set_nodup.
Qed.

(** X22. A row never has two columns of the same name, whatever the
    labels of the session are. *)
Theorem row_keys_distinct (base : pystr) (sess : session) (iv : interval)
    (r : record) :
  process_interval base sess iv = Appends r -> NoDup (keys r).
Proof.
  unfold process_interval.
  destruct (map_interval _ _ _) as [[|s e]|]; try discriminate.
  destruct (build_record base sess iv s e) as [r'|] eqn:E; [|discriminate].
  intros [= ->]. unfold build_record in E.
  eapply add_features_nodup; [|exact E].
  repeat constructor; simpl; intuition discriminate.
Qed.

Lemma row_keys_distinct_witness :
  exists r,
    process_interval (str "rec") twin_session seconds_2_to_5 = Appends r /\
    NoDup (keys r).
Proof.
  destruct (process_interval (str "rec") twin_session seconds_2_to_5)
    as [| |r] eqn:E; try (vm_compute in E; discriminate).
  exists r. split; [reflexivity|].
  exact (row_keys_distinct (str "rec") twin_session seconds_2_to_5 r E).
Defined.

(* ================================================================== *)
(** * Tokens and labels *)

Lemma is_word_rev (cur : pystr) :
  cur <> [] ->
  forallb (fun c => negb (isspace c)) cur = true ->
  is_word (rev cur) = true.
Proof.
  intros Hne H. unfold is_word.
  destruct (rev cur) eqn:E.
  - exfalso. apply Hne. apply (f_equal (@rev N)) in E.
    now rewrite rev_involutive in E.
  - rewrite <- E, forallb_rev. exact H.
Qed.

Lemma split_from_words (s : pystr) :
  forall cur,
  forallb (fun c => negb (isspace c)) cur = true ->
  forallb is_word (split_from cur s) = true.
Proof.
  induction s as [|c s IH]; intros cur Hcur; cbn [split_from].
  - destruct cur as [|a cur]; [reflexivity|]. cbn [forallb].
    rewrite is_word_rev by (discriminate || assumption). reflexivity.
  - destruct (isspace c) eqn:Ec.
    + destruct cur as [|a cur]; [now apply IH|].
      cbn [forallb]. rewrite is_word_rev by (discriminate || assumption).
      now rewrite (IH [] eq_refl).
    + apply IH. cbn [forallb]. now rewrite Ec.
Qed.

Lemma split_from_word (w : pystr) :
  forall cur rest,
  forallb (fun c => negb (isspace c)) w = true ->
  split_from cur (w ++ rest) = split_from (rev w ++ cur) rest.
Proof.
  induction w as [|c w IH]; intros cur rest H; [reflexivity|].
  simpl in H. apply andb_prop in H as [Hc Hw].
  apply negb_true_iff in Hc.
  cbn [app split_from]. rewrite Hc, IH by assumption.
  cbn [rev]. now rewrite <- app_assoc.
Qed.

Lemma is_word_spec (w : pystr) :
  is_word w = true ->
  w <> [] /\ forallb (fun c => negb (isspace c)) w = true.
Proof. destruct w; [discriminate|]. intros H. split; [discriminate|exact H]. Qed.

Lemma split_join (parts : list pystr) :
  forallb is_word parts = true -> split (join parts) = parts.
Proof.
  unfold split. induction parts as [|p parts IH]; intros H; [reflexivity|].
  cbn [forallb] in H. apply andb_prop in H as [Hp Hrest].
  destruct (is_word_spec p Hp) as [Hne Hns].
  assert (Hrev : rev p <> []).
  { intros E. apply Hne. apply (f_equal (@rev N)) in E.
    now rewrite rev_involutive in E. }
  destruct parts as [|q parts].
  - cbn [join]. rewrite <- (app_nil_r p) at 1.
    rewrite split_from_word by assumption. rewrite app_nil_r.
    cbn [split_from]. destruct (rev p) eqn:E; [congruence|].
    now rewrite <- E, rev_involutive.
  - change (join (p :: q :: parts)) with (p ++ 32%N :: join (q :: parts)).
    rewrite split_from_word by assumption. rewrite app_nil_r.
    cbn [split_from]. change (isspace 32) with true. cbv iota.
    destruct (rev p) eqn:E; [congruence|].
    rewrite <- E, rev_involutive. f_equal. now apply IH.
Qed.

Lemma forallb_skipn {A} (f : A -> bool) (n : nat) (l : list A) :
  forallb f l = true -> forallb f (skipn n l) = true.
Proof.
  revert l; induction n as [|n IH]; intros l H; [exact H|].
  destruct l as [|x l]; [reflexivity|].
  simpl in *. apply andb_prop in H as [_ H]. now apply IH.
Qed.

(** X23. Every token of a line is a non-empty word without whitespace,
    and the label of a data line with more than three tokens is made of
    the words after the third: splitting the label gives exactly those
    words back, so the label keeps the words but not the spacing between
    them. *)
Theorem label_round_trip {B : Builtins} (raw : pystr) (t : float) (m : Z)
    (lb : pystr) :
  classify raw = Event t m (Some lb) ->
  forallb is_word (tokens raw) = true /\
  split lb = skipn 3 (tokens raw) /\
  skipn 3 (tokens raw) <> [] /\
  lb = join (skipn 3 (tokens raw)).
Proof.
  intros H.
  assert (W : forallb is_word (tokens raw) = true)
    by (apply split_from_words; reflexivity).
  split; [exact W|].
  unfold classify in H. fold (tokens raw) in H.
  destruct (remove_bom (strip raw)); [discriminate|].
  destruct (length (tokens raw) <? 3)%nat; [discriminate|].
  destruct (py_float _); [|discriminate].
  destruct (py_int _); [|discriminate].
  destruct (Nat.ltb_spec 3 (length (tokens raw))) as [Hlen|]; [|discriminate].
  injection H as _ _ <-.
  repeat split.
  - apply split_join, forallb_skipn, W.
  - intros E. apply (f_equal (@length pystr)) in E.
    rewrite length_skipn in E. simpl in E. lia.
Qed.

Lemma label_round_trip_witness :
  @classify decimal_builtins spaced_line =
    Event (float_of_Z 1) 5 (Some (str "first word")) /\
  split (str "first word") =
    skipn 3 (tokens spaced_line).
Proof.
  split; [reflexivity|].
  apply (@label_round_trip decimal_builtins spaced_line
           (float_of_Z 1) 5 (str "first word") eq_refl).
Defined.

Section TokenFacts.
Context {B : Builtins}.

Lemma event_of_tokens (r1 r2 : pystr) (t : float) (m : Z) (l : option pystr) :
  tokens r1 = tokens r2 ->
  classify r1 = Event t m l -> classify r2 = Event t m l.
Proof.
  intros Ht H. unfold classify in *.
  fold (tokens r1) in H. fold (tokens r2). rewrite <- Ht.
  destruct (remove_bom (strip r1)); [discriminate|].
  destruct (Nat.ltb_spec (length (tokens r1)) 3) as [|Hlen]; [discriminate|].
  destruct (remove_bom (strip r2)) eqn:E2.
  - exfalso. unfold tokens in Ht at 2. rewrite E2 in Ht.
    rewrite Ht in Hlen. simpl in Hlen. lia.
  - destruct (Nat.ltb_spec (length (tokens r1)) 3); [lia|].
    revert H.
    destruct (py_float _); [|discriminate].
    destruct (py_int _); [|discriminate].
    auto.
Qed.

(** X24. What a data line means depends only on its tokens: two lines
    with the same tokens, however they are spaced (blanks, tabs, runs of
    whitespace), give the same time, marker and label. *)
Theorem event_depends_on_tokens (r1 r2 : pystr) (t : float) (m : Z)
    (l : option pystr) :
  tokens r1 = tokens r2 ->
  classify r1 = Event t m l ->
  classify r2 = Event t m l /\
  forall st, parse_line st r2 = parse_line st r1.
Proof.
  intros Ht H.
  pose proof (event_of_tokens r1 r2 t m l Ht H) as H2.
  split; [exact H2|]. intros st. unfold parse_line. now rewrite H, H2.
Qed.

End TokenFacts.

Lemma event_depends_on_tokens_witness :
  tokens (str "2.5 k 5 on  air") = tokens tabbed_line /\
  @classify decimal_builtins tabbed_line =
    Event (float_of_decimal 25 1) 5 (Some (str "on air")).
Proof.
  split; [reflexivity|].
  apply (@event_depends_on_tokens decimal_builtins (str "2.5 k 5 on  air")
           tabbed_line
           (float_of_decimal 25 1) 5 (Some (str "on air")) eq_refl eq_refl).
Defined.

(* ================================================================== *)
(** * The byte-order mark *)

Lemma lstrip_decomp (s : pystr) :
  exists w, forallb isspace w = true /\ s = w ++ lstrip s.
Proof.
  induction s as [|c s (w & Hw & E)]; [exists []; auto|].
  simpl. destruct (isspace c) eqn:Ec.
  - exists (c :: w). simpl. rewrite Ec, Hw. split; [reflexivity|congruence].
  - exists []. auto.
Qed.

Lemma strip_decomp (s : pystr) :
  exists w1 w2,
    forallb isspace w1 = true /\ forallb isspace w2 = true /\
    s = w1 ++ strip s ++ w2.
Proof.
  destruct (lstrip_decomp s) as (w1 & H1 & E1).
  destruct (lstrip_decomp (rev (lstrip s))) as (w2 & H2 & E2).
  exists w1, (rev w2). repeat split; auto.
  - now rewrite forallb_rev.
  - unfold strip. rewrite <- rev_app_distr, <- E2, rev_involutive. exact E1.
Qed.

Lemma remove_bom_space (w : pystr) :
  forallb isspace w = true -> remove_bom w = w.
Proof.
  induction w as [|c w IH]; [reflexivity|]. simpl.
  intros H. apply andb_prop in H as [Hc Hw].
  destruct (N.eqb_spec c BOM) as [->|_]; [discriminate|].
  simpl. now rewrite IH.
Qed.

Lemma split_from_lead (w x : pystr) :
  forallb isspace w = true -> split_from [] (w ++ x) = split_from [] x.
Proof.
  induction w as [|c w IH]; [reflexivity|]. simpl.
  intros H. apply andb_prop in H as [Hc Hw]. rewrite Hc. now apply IH.
Qed.

Lemma split_from_spaces (w : pystr) :
  forallb isspace w = true ->
  forall cur, split_from cur w = split_from cur [].
Proof.
  induction w as [|c w IH]; [reflexivity|]. simpl.
  intros H cur. apply andb_prop in H as [Hc Hw]. rewrite Hc.
  destruct cur; rewrite (IH Hw); reflexivity.
Qed.

Lemma split_from_trail (w x : pystr) :
  forallb isspace w = true ->
  forall cur, split_from cur (x ++ w) = split_from cur x.
Proof.
  intros Hw. induction x as [|c x IH]; intros cur.
  - now apply split_from_spaces.
  - cbn [app split_from]. destruct (isspace c); [destruct cur|];
      now rewrite ?IH.
Qed.

Lemma tokens_alt (raw : pystr) : tokens raw = split (remove_bom raw).
Proof.
  destruct (strip_decomp raw) as (w1 & w2 & H1 & H2 & E).
  unfold tokens, split. rewrite E at 2. unfold remove_bom.
  rewrite !filter_app. fold (remove_bom w1) (remove_bom w2)
    (remove_bom (strip raw)).
  rewrite (remove_bom_space w1 H1), (remove_bom_space w2 H2).
  now rewrite split_from_lead, split_from_trail.
Qed.

(** X25. A byte-order mark is ignored wherever it stands in a line: the
    line with the mark has the same tokens as the line without it, and
    if the line without it is a data line then so is the line with it,
    with the same time, marker and label. *)
Theorem bom_ignored {B : Builtins} (a b : pystr) :
  tokens (a ++ BOM :: b) = tokens (a ++ b) /\
  (forall t m l,
     classify (a ++ b) = Event t m l ->
     classify (a ++ BOM :: b) = Event t m l).
Proof.
  assert (E : tokens (a ++ BOM :: b) = tokens (a ++ b)).
  { rewrite !tokens_alt. f_equal. unfold remove_bom.
    rewrite !filter_app. cbn [filter]. now rewrite N.eqb_refl. }
  split; [exact E|].
  intros t m l H. apply (event_of_tokens (a ++ b)); [now symmetry|exact H].
Qed.
